(** * The WebGL render-outline engine of react-scan ([src/core/web/outline.ts])

    A shallow embedding of the outline pipeline: the geometry cache
    ([getRect]), the merger of pending outlines ([mergeOutlines]), the
    registry of active outlines ([paintOutlineGL], [fadeOutOutlineGL]),
    the label texture cache ([createTextTexture]) and the flush of the
    scheduled queue ([flushOutlinesGL]).

    Conventions of the embedding.
    - JavaScript numbers that hold pixel coordinates, time stamps and
      counters are integers here ([Z], [nat]); the interpolation ratio and
      alpha are rationals ([Q]).
    - Module-level singletons ([ReactScanInternals], [componentUpdateMap],
      [textureCache], [rectCache], [animationFrameId]) are the fields of one
      [State] record that every operation threads.
    - Calls into the host (layout reads, GPU texture allocation,
      [requestAnimationFrame], user callbacks) append an [Event] to the
      [log] field, in call order.
    - A pending outline is created fresh for each render by [getOutline],
      so outlines are passed by value.
    - Of the variants of [outline.ts] the one embedded is the WebGL2 variant
      with the label texture cache; line numbers refer to it. *)

From Stdlib Require Import ZArith QArith Qround Qminmax Lia Lqa Ascii.
From stdpp Require Import base option list gmap strings pretty.

Local Open Scope Z_scope.
#[local] Set Warnings "-clear-no-such-hyp".

(** ** Geometry *)

Record DOMRect := mkRect { x : Z; y : Z; width : Z; height : Z }.

Definition top (r : DOMRect) : Z := Z.min (y r) (y r + height r).
Definition bottom (r : DOMRect) : Z := Z.max (y r) (y r + height r).
Definition left (r : DOMRect) : Z := Z.min (x r) (x r + width r).
Definition right (r : DOMRect) : Z := Z.max (x r) (x r + width r).

(** An element handle; the DOM itself is part of the host. *)
Definition HTMLElement := nat.

Record CSSStyle := mkStyle { display : string; visibility : string; opacity : string }.

(** What the page answers while one operation runs.  [clock n] is the value
    of the n-th call of [performance.now()]; the three flags are the checks
    [drawOutlines] makes on the outline shader program. *)
Record Host := mkHost {
  getComputedStyle : HTMLElement -> CSSStyle;
  getBoundingClientRect : HTMLElement -> DOMRect;
  innerWidth : Z;
  innerHeight : Z;
  clock : nat -> Z;
  programValid : bool;
  programLinked : bool;
  attribsFound : bool
}.

Record CachedRect := mkCached { cached_rect : DOMRect; timestamp : Z }.

Record Color := mkColor { r : Z; g : Z; b : Z }.

Record TextureInfo := mkTexture { texture : nat; useCount : nat; tex_width : Z; tex_height : Z }.

Record Options := mkOptions {
  maxRenders : option Z;
  onPaintStart : bool;
  onPaintFinish : bool
}.

(** ** Color derivation (lines 1572-1580 of [paintOutlineGL]) *)

Definition START_COLOR : Color := mkColor 115 97 230.
Definition END_COLOR : Color := mkColor 185 49 115.

(** [Math.round]: the nearest integer, halves going up. *)
Definition Math_round (v : Q) : Z := Qfloor (v + (1 # 2)).

(** [Math.round(from + t * (to - from))]. *)
Definition mix (from to : Z) (t : Q) : Z :=
  Math_round (inject_Z from + t * inject_Z (to - from)).

Definition gradient (t : Q) : Color :=
  mkColor (mix (r START_COLOR) (r END_COLOR) t)
          (mix (g START_COLOR) (g END_COLOR) t)
          (mix (b START_COLOR) (b END_COLOR) t).

(** [Math.min(updateCount / maxRenders, 1)].  A zero divisor gives
    [+Infinity] for a positive count, of which the minimum with 1 is 1; the
    count is at least 1 where this is called (it has just been incremented),
    the value at [0 / 0] is a placeholder for NaN. *)
Definition intensity (updateCount : nat) (maxR : Z) : Q :=
  if maxR =? 0 then (if Nat.eqb updateCount 0 then 0%Q else 1%Q)
  else Qmin (inject_Z (Z.of_nat updateCount) / inject_Z maxR) 1.

(** ** The engine state *)

Section Engine.

(** [Render] is declared in the instrumentation module; the stability test
    [isOutlineUnstable], the label of a render list [getLabelText] and the
    canvas text measurement are imported helpers: all four are parameters. *)
Context {Render : Type}.

Record PendingOutline := mkPending {
  rect : DOMRect;
  domNode : HTMLElement;
  renders : list Render
}.

Variable isOutlineUnstable : PendingOutline -> bool.
Variable getLabelText : list Render -> option string.
Variable measureText : option string -> Z.

(** [resolve] is the closure stored at lines 1595-1598; it is identified
    with the promise it settles. *)
Record ActiveOutline := mkActive {
  outline : PendingOutline;
  alpha : Q;
  frame : nat;
  totalFrames : nat;
  resolve : nat;
  text : option string;
  color : Color
}.

Inductive Event :=
| EvComputedStyle (e : HTMLElement)
| EvBoundingRect (e : HTMLElement)
| EvCreateTexture (t : nat) (label : option string)
| EvDeleteTexture (t : nat)
| EvRequestFrame (id : nat)
| EvDrawInstanced (instances : nat)
| EvPaintStart (o : PendingOutline)
| EvPaintFinish (o : PendingOutline)
| EvResolve (p : nat).

(** The suspended body of one [flushOutlinesGL] call: the paints its
    [Promise.all] still awaits, each with the key and the outline that its
    continuation would record in [newPreviousOutlines]. *)
Record Flight := mkFlight {
  pendingPaints : list (nat * string * PendingOutline);
  newPreviousOutlines : list (string * PendingOutline)
}.

Record State := mkState {
  scheduledOutlines : list PendingOutline;
  activeOutlines : list ActiveOutline;
  options : Options;
  componentUpdateMap : gmap string nat;
  textureCache : list (option string * TextureInfo);
  rectCache : gmap HTMLElement CachedRect;
  animationFrameId : option nat;
  flights : list Flight;
  settled : list nat;
  nowCalls : nat;
  nextHandle : nat;
  log : list Event
}.

Definition set_scheduled (v : list PendingOutline) (s : State) : State :=
  mkState v (activeOutlines s) (options s) (componentUpdateMap s) (textureCache s)
    (rectCache s) (animationFrameId s) (flights s) (settled s) (nowCalls s)
    (nextHandle s) (log s).
Definition set_active (v : list ActiveOutline) (s : State) : State :=
  mkState (scheduledOutlines s) v (options s) (componentUpdateMap s) (textureCache s)
    (rectCache s) (animationFrameId s) (flights s) (settled s) (nowCalls s)
    (nextHandle s) (log s).
Definition set_updateMap (v : gmap string nat) (s : State) : State :=
  mkState (scheduledOutlines s) (activeOutlines s) (options s) v (textureCache s)
    (rectCache s) (animationFrameId s) (flights s) (settled s) (nowCalls s)
    (nextHandle s) (log s).
Definition set_textureCache (v : list (option string * TextureInfo)) (s : State) : State :=
  mkState (scheduledOutlines s) (activeOutlines s) (options s) (componentUpdateMap s) v
    (rectCache s) (animationFrameId s) (flights s) (settled s) (nowCalls s)
    (nextHandle s) (log s).
Definition set_rectCache (v : gmap HTMLElement CachedRect) (s : State) : State :=
  mkState (scheduledOutlines s) (activeOutlines s) (options s) (componentUpdateMap s)
    (textureCache s) v (animationFrameId s) (flights s) (settled s) (nowCalls s)
    (nextHandle s) (log s).
Definition set_frameId (v : option nat) (s : State) : State :=
  mkState (scheduledOutlines s) (activeOutlines s) (options s) (componentUpdateMap s)
    (textureCache s) (rectCache s) v (flights s) (settled s) (nowCalls s)
    (nextHandle s) (log s).
Definition set_flights (v : list Flight) (s : State) : State :=
  mkState (scheduledOutlines s) (activeOutlines s) (options s) (componentUpdateMap s)
    (textureCache s) (rectCache s) (animationFrameId s) v (settled s) (nowCalls s)
    (nextHandle s) (log s).
Definition set_settled (v : list nat) (s : State) : State :=
  mkState (scheduledOutlines s) (activeOutlines s) (options s) (componentUpdateMap s)
    (textureCache s) (rectCache s) (animationFrameId s) (flights s) v (nowCalls s)
    (nextHandle s) (log s).
Definition set_nowCalls (v : nat) (s : State) : State :=
  mkState (scheduledOutlines s) (activeOutlines s) (options s) (componentUpdateMap s)
    (textureCache s) (rectCache s) (animationFrameId s) (flights s) (settled s) v
    (nextHandle s) (log s).
Definition set_nextHandle (v : nat) (s : State) : State :=
  mkState (scheduledOutlines s) (activeOutlines s) (options s) (componentUpdateMap s)
    (textureCache s) (rectCache s) (animationFrameId s) (flights s) (settled s)
    (nowCalls s) v (log s).
Definition emit (e : Event) (s : State) : State :=
  mkState (scheduledOutlines s) (activeOutlines s) (options s) (componentUpdateMap s)
    (textureCache s) (rectCache s) (animationFrameId s) (flights s) (settled s)
    (nowCalls s) (nextHandle s) (log s ++ [e]).

(** [performance.now()] *)
Definition performance_now (host : Host) (s : State) : Z * State :=
  (clock host (nowCalls s), set_nowCalls (S (nowCalls s)) s).

(** A fresh handle of the host (promise, texture or animation frame);
    handles start at 1, so a frame handle is never falsy. *)
Definition fresh_handle (s : State) : nat * State :=
  (nextHandle s, set_nextHandle (S (nextHandle s)) s).

Definition initial (opts : Options) : State :=
  mkState [] [] opts ∅ [] ∅ None [] [] 0 1 [].

(** ** [getOutlineKey] (lines 1390-1392) *)

Definition rectKey (rc : DOMRect) : string :=
  pretty (top rc) +:+ "-" +:+ pretty (left rc) +:+ "-" +:+
  pretty (width rc) +:+ "-" +:+ pretty (height rc).

Definition getOutlineKey (o : PendingOutline) : string := rectKey (rect o).

(** ** [getRect] (lines 1396-1426) *)

Definition style_hidden (st : CSSStyle) : bool :=
  bool_decide (display st = "none") ||
  bool_decide (visibility st = "hidden") ||
  bool_decide (opacity st = "0").

Definition isVisible (host : Host) (rc : DOMRect) : bool :=
  (-30 <=? top rc) && (0 <=? left rc) &&
  (bottom rc <=? innerHeight host + 30) && (right rc <=? innerWidth host + 30).

(** The part of [getRect] after the cache test: reads the style, then the
    layout, and stores the rectangle when it passes the tests. *)
Definition computeRect (host : Host) (e : HTMLElement) (s : State)
  : option DOMRect * State :=
  let s1 := emit (EvComputedStyle e) s in
  if style_hidden (getComputedStyle host e) then (None, s1)
  else
    let s2 := emit (EvBoundingRect e) s1 in
    let rc := getBoundingClientRect host e in
    if negb (isVisible host rc) || (width rc =? 0) || (height rc =? 0)
    then (None, s2)
    else
      let '(now, s3) := performance_now host s2 in
      (Some rc, set_rectCache (<[e := mkCached rc now]> (rectCache s3)) s3).

Definition getRect (host : Host) (e : HTMLElement) (s : State)
  : option DOMRect * State :=
  match rectCache s !! e with
  | Some cached =>
      let '(now, s1) := performance_now host s in
      if now - 128 <? timestamp cached then (Some (cached_rect cached), s1)
      else computeRect host e s1
  | None => computeRect host e s
  end.

(** What the live page says about an element, the cache left aside. *)
Definition liveRect (host : Host) (e : HTMLElement) : option DOMRect :=
  let rc := getBoundingClientRect host e in
  if style_hidden (getComputedStyle host e) then None
  else if isVisible host rc && negb (width rc =? 0) && negb (height rc =? 0)
       then Some rc else None.

(** The conditions under which an element has no outline rectangle. *)
Definition suppressed (host : Host) (e : HTMLElement) : Prop :=
  let st := getComputedStyle host e in
  display st = "none" \/ visibility st = "hidden" \/ opacity st = "0".

Definition zero_size (host : Host) (e : HTMLElement) : Prop :=
  let rc := getBoundingClientRect host e in width rc = 0 \/ height rc = 0.

Definition outside_margin (host : Host) (e : HTMLElement) : Prop :=
  let rc := getBoundingClientRect host e in
  bottom rc < -30 \/ right rc < 0 \/
  innerHeight host + 30 < top rc \/ innerWidth host + 30 < left rc.

Definition not_drawable (host : Host) (e : HTMLElement) : Prop :=
  suppressed host e \/ zero_size host e \/ outside_margin host e.

(** The cache holds an entry for [e] younger than 128ms at the next reading
    of the clock. *)
Definition cache_fresh (host : Host) (e : HTMLElement) (s : State) : Prop :=
  exists c, rectCache s !! e = Some c /\ clock host (nowCalls s) - timestamp c < 128.

(** ** Insertion-ordered maps

    A JavaScript [Map] iterates in insertion order and [set] on a present key
    keeps its position; [textureCache], the map local to [mergeOutlines] and
    [previousOutlines] are lists of bindings with pairwise distinct keys. *)

Fixpoint omap_get {K V} `{EqDecision K} (k : K) (m : list (K * V)) : option V :=
  match m with
  | [] => None
  | (k', v) :: m' => if decide (k = k') then Some v else omap_get k m'
  end.

Fixpoint omap_set {K V} `{EqDecision K} (k : K) (v : V) (m : list (K * V)) : list (K * V) :=
  match m with
  | [] => [(k, v)]
  | (k', v') :: m' =>
      if decide (k = k') then (k', v) :: m' else (k', v') :: omap_set k v m'
  end.

Definition omap_has {K V} `{EqDecision K} (k : K) (m : list (K * V)) : bool :=
  match omap_get k m with Some _ => true | None => false end.

(** ** [mergeOutlines] (lines 1462-1476) *)

Definition push_renders (existing o : PendingOutline) : PendingOutline :=
  mkPending (rect existing) (domNode existing) (renders existing ++ renders o).

Definition merge_step (m : list (string * PendingOutline)) (o : PendingOutline)
  : list (string * PendingOutline) :=
  let key := getOutlineKey o in
  match omap_get key m with
  | None => omap_set key o m
  | Some existing => omap_set key (push_renders existing o) m
  end.

Definition mergeOutlines (outlines : list PendingOutline) : list PendingOutline :=
  (fold_left merge_step outlines []).*2.

(** ** [createTextTexture] (lines 1332-1388) *)

Definition createTextTexture (label : option string) (s : State) : TextureInfo * State :=
  match omap_get label (textureCache s) with
  | Some info =>
      let info' := mkTexture (texture info) (S (useCount info)) (tex_width info) (tex_height info) in
      (info', set_textureCache (omap_set label info' (textureCache s)) s)
  | None =>
      let '(t, s1) := fresh_handle s in
      let s2 := emit (EvCreateTexture t label) s1 in
      let info := mkTexture t 1 (measureText label) 72 in
      (info, set_textureCache (omap_set label info (textureCache s2)) s2)
  end.

(** ** [paintOutlineGL] (lines 1551-1608) *)

Definition same_key (key : string) (a : ActiveOutline) : bool :=
  bool_decide (getOutlineKey (outline a) = key).

(** The assignments of the refresh branch (lines 1583-1588). *)
Definition refresh (o : PendingOutline) (frames : nat) (c : Color) (a : ActiveOutline)
  : ActiveOutline :=
  mkActive (mkPending (rect o) (domNode (outline a)) (renders (outline a) ++ renders o))
           1 0 frames (resolve a) (text a) c.

(** [find] returns the first active outline with the key, and the refresh
    branch mutates that object in place. *)
Fixpoint refresh_first (key : string) (o : PendingOutline) (frames : nat) (c : Color)
    (l : list ActiveOutline) : list ActiveOutline :=
  match l with
  | [] => []
  | a :: l' =>
      if same_key key a then refresh o frames c a :: l'
      else a :: refresh_first key o frames c l'
  end.

Definition request_frame (s : State) : State :=
  let '(id, s1) := fresh_handle s in
  emit (EvRequestFrame id) (set_frameId (Some id) s1).

(** The result is the promise that [paintOutlineGL] returns. *)
Definition paintOutlineGL (o : PendingOutline) (s : State) : nat * State :=
  let '(p, s0) := fresh_handle s in
  let unstable := isOutlineUnstable o in
  let frames := if unstable then 60%nat else 30%nat in
  let s1 := if onPaintStart (options s0) then emit (EvPaintStart o) s0 else s0 in
  let key := getOutlineKey o in
  let existing := find (same_key key) (activeOutlines s1) in
  let currentCount := default 0%nat (componentUpdateMap s1 !! key) in
  let s2 := set_updateMap (<[key := (currentCount + 1)%nat]> (componentUpdateMap s1)) s1 in
  let maxR := default 100 (maxRenders (options s2)) in
  let updateCount := default 0%nat (componentUpdateMap s2 !! key) in
  let c := gradient (intensity updateCount maxR) in
  let s3 :=
    match existing with
    | Some _ => set_active (refresh_first key o frames c (activeOutlines s2)) s2
    | None =>
        set_active (activeOutlines s2 ++
                    [mkActive o 1 0 frames p (getLabelText (renders o)) c]) s2
    end in
  let s4 := match animationFrameId s3 with
            | None => request_frame s3
            | Some _ => s3
            end in
  (p, s4).

(** The body of the closure stored in the [resolve] field: it settles the
    promise and calls [options.onPaintFinish]. *)
Definition run_resolve (a : ActiveOutline) (s : State) : State :=
  let s1 := set_settled (settled s ++ [resolve a]) (emit (EvResolve (resolve a)) s) in
  if onPaintFinish (options s1) then emit (EvPaintFinish (outline a)) s1 else s1.

(** ** [assembleOutlinesDrawArraysInstanced] and [drawOutlines] (lines 1832-1971)

    The instance buffers handed to the GPU are output only; the embedding
    keeps what the loop does to the engine state. *)

Definition assemble_one (host : Host) (a : ActiveOutline) (s : State)
  : ActiveOutline * State :=
  let o := outline a in
  let unstable := isOutlineUnstable o in
  let s1 := if negb (omap_has (text a) (textureCache s)) && unstable
            then (createTextTexture (text a) s).2 else s in
  let '(newRect, s2) := getRect host (domNode o) s1 in
  let o' := match newRect with
            | Some rc => mkPending rc (domNode o) (renders o)
            | None => o
            end in
  let alphaScalar := if unstable then 1%Q else (1 # 5)%Q in
  let alpha' := (alphaScalar *
                 (1 - inject_Z (Z.of_nat (frame a)) / inject_Z (Z.of_nat (totalFrames a))))%Q in
  (mkActive o' alpha' (S (frame a)) (totalFrames a) (resolve a) (text a) (color a), s2).

Fixpoint assemble_all (host : Host) (l : list ActiveOutline) (s : State)
  : list ActiveOutline * State :=
  match l with
  | [] => ([], s)
  | a :: l' =>
      let '(a', s1) := assemble_one host a s in
      let '(l'', s2) := assemble_all host l' s1 in
      (a' :: l'', s2)
  end.

Definition assembleOutlinesDrawArraysInstanced (host : Host) (s : State) : State :=
  let '(l, s1) := assemble_all host (activeOutlines s) s in
  set_active l s1.

Definition drawOutlines (host : Host) (s : State) : bool * State :=
  if negb (programValid host) then (false, s)
  else if negb (programLinked host) then (false, s)
  else if negb (attribsFound host) then (false, s)
  else
    let s1 := assembleOutlinesDrawArraysInstanced host s in
    (true, emit (EvDrawInstanced (length (activeOutlines s1))) s1).

(** ** [fadeOutOutlineGL] (lines 1610-1688)

    The resize of the canvas, the framebuffer bindings, [drawText] and
    [drawComposite] only talk to the GPU and are left out; [drawOutlines] is
    kept for the assembly loop it runs. *)

(** The [forEach] over [textureCache] of the idle branch (lines 1625-1631). *)
Fixpoint sweep_textures (m : list (option string * TextureInfo)) (s : State)
  : list (option string * TextureInfo) * State :=
  match m with
  | [] => ([], s)
  | (k, info) :: m' =>
      if (1 <? useCount info)%nat then
        let '(m'', s1) := sweep_textures m' s in
        ((k, mkTexture (texture info) (useCount info - 1) (tex_width info) (tex_height info))
           :: m'', s1)
      else
        let '(m'', s1) := sweep_textures m' (emit (EvDeleteTexture (texture info)) s) in
        ((k, info) :: m'', s1)
  end.

Definition expired (a : ActiveOutline) : bool := (totalFrames a <? frame a)%nat.

Definition idle_cleanup (s : State) : State :=
  let s1 := set_frameId None s in
  let s2 := set_updateMap ∅ s1 in
  let s3 := set_rectCache ∅ s2 in
  let '(swept, s4) := sweep_textures (textureCache s3) s3 in
  let s5 := set_textureCache swept s4 in
  set_textureCache [] s5.

Definition fadeOutOutlineGL (host : Host) (s : State) : State :=
  match activeOutlines s with
  | [] => idle_cleanup s
  | _ :: _ =>
      let '(_, s1) := drawOutlines host s in
      let s2 := set_active (filter (fun a => negb (expired a)) (activeOutlines s1)) s1 in
      request_frame s2
  end.

(** ** [recalcOutlines] (lines 1478-1502)

    The function under the [throttle] wrapper; both loops run from the last
    index down and splice in place. *)

Fixpoint recalc_scheduled (host : Host) (l : list PendingOutline) (s : State)
  : list PendingOutline * State :=
  match l with
  | [] => ([], s)
  | o :: l' =>
      let '(kept, s1) := recalc_scheduled host l' s in
      match getRect host (domNode o) s1 with
      | (None, s2) => (kept, s2)
      | (Some rc, s2) => (mkPending rc (domNode o) (renders o) :: kept, s2)
      end
  end.

Fixpoint recalc_active (host : Host) (l : list ActiveOutline) (s : State)
  : list ActiveOutline * State :=
  match l with
  | [] => ([], s)
  | a :: l' =>
      let '(kept, s1) := recalc_active host l' s in
      let o := outline a in
      match getRect host (domNode o) s1 with
      | (None, s2) => (kept, s2)
      | (Some rc, s2) =>
          (mkActive (mkPending rc (domNode o) (renders o)) (alpha a) (frame a)
                    (totalFrames a) (resolve a) (text a) (color a) :: kept, s2)
      end
  end.

Definition recalcOutlines (host : Host) (s : State) : State :=
  let '(q, s1) := recalc_scheduled host (scheduledOutlines s) s in
  let '(acts, s2) := recalc_active host (activeOutlines s1) s1 in
  set_active acts (set_scheduled q s2).

(** ** [flushOutlinesGL] (lines 1504-1549)

    The body of the async function runs synchronously up to its [await]:
    the second read of the queue, the merge and every call of
    [paintOutlineGL] happen inside the call of [flushOutlinesGL]; what is
    left suspended is recorded as a [Flight].  The toolbar text is output
    only. *)

Definition paint_unless_previous (previousOutlines : list (string * PendingOutline))
    (acc : list (nat * string * PendingOutline) * State) (o : PendingOutline)
  : list (nat * string * PendingOutline) * State :=
  let '(awaited, s) := acc in
  let key := getOutlineKey o in
  if omap_has key previousOutlines then (awaited, s)
  else
    let '(p, s1) := paintOutlineGL o s in
    (awaited ++ [(p, key, o)], s1).

Definition flushOutlinesGL (previousOutlines : list (string * PendingOutline)) (s : State)
  : State :=
  match scheduledOutlines s with
  | [] => s
  | _ :: _ =>
      let firstOutlines := scheduledOutlines s in
      let s1 := set_scheduled [] s in
      let secondOutlines := scheduledOutlines s1 in
      let s2 := set_scheduled [] s1 in
      let mergedOutlines := mergeOutlines (firstOutlines ++ secondOutlines) in
      let '(awaited, s3) :=
        fold_left (paint_unless_previous previousOutlines) mergedOutlines ([], s2) in
      set_flights (flights s3 ++ [mkFlight awaited []]) s3
  end.

(** One turn of the event loop over the suspended flushes.  An awaited paint
    whose promise has settled runs its continuation
    ([newPreviousOutlines.set]); a flush with nothing left to await runs the
    tail of its body, the re-flush of what has been scheduled meanwhile. *)

Definition paint_settled (done : list nat) (w : nat * string * PendingOutline) : bool :=
  bool_decide (w.1.1 ∈ done).

Definition settle_paints (done : list nat) (f : Flight) : Flight :=
  mkFlight (filter (fun w => negb (paint_settled done w)) (pendingPaints f))
           (fold_left (fun m w => omap_set w.1.2 w.2 m)
                      (filter (fun w => paint_settled done w) (pendingPaints f))
                      (newPreviousOutlines f)).

Definition resume_flight (s : State) (f : Flight) : State :=
  let f' := settle_paints (settled s) f in
  match pendingPaints f' with
  | [] =>
      match scheduledOutlines s with
      | [] => s
      | _ :: _ => flushOutlinesGL (newPreviousOutlines f') s
      end
  | _ :: _ => set_flights (flights s ++ [f']) s
  end.

Definition event_loop_turn (s : State) : State :=
  fold_left resume_flight (flights s) (set_flights [] s).

(** Modelled from the spec: the producer of render events lives outside
    [outline.ts]; on a batch of resolved regions it appends them to
    [ReactScanInternals.scheduledOutlines]. *)
Definition scheduleOutlines (batch : list PendingOutline) (s : State) : State :=
  set_scheduled (scheduledOutlines s ++ batch) s.

(** ** Notions used in the statements *)

(** The renders of the input outlines that carry the key, in input order. *)
Definition renders_of (key : string) (l : list PendingOutline) : list Render :=
  concat (renders <$> filter (fun o => getOutlineKey o = key) l).

Definition merged_map (l : list PendingOutline) : list (string * PendingOutline) :=
  fold_left merge_step l [].

Definition active_keys (l : list ActiveOutline) : list string :=
  (fun a => getOutlineKey (outline a)) <$> l.

(** The fade window and the color that [paintOutlineGL] derives for an
    outline painted in state [s]. *)
Definition paint_frames (o : PendingOutline) : nat :=
  if isOutlineUnstable o then 60%nat else 30%nat.

Definition paint_color (o : PendingOutline) (s : State) : Color :=
  gradient (intensity (S (default 0%nat (componentUpdateMap s !! getOutlineKey o)))
                      (default 100 (maxRenders (options s)))).

(** [drawOutlines] reaches the assembly loop. *)
Definition drawable (host : Host) : bool :=
  programValid host && programLinked host && attribsFound host.

(** Identity (the promise of the paint that created it), frame and fade
    window of an active outline. *)
Definition frame_view (a : ActiveOutline) : nat * nat * nat :=
  (resolve a, frame a, totalFrames a).

Definition advance (k : nat) (v : nat * nat * nat) : nat * nat * nat :=
  (v.1.1, (v.1.2 + k)%nat, v.2).

Definition alive (k : nat) (v : nat * nat * nat) : bool :=
  (v.1.2 + k <=? v.2)%nat.

(** One animation frame after the other, each with what the page answers
    during it. *)
Definition ticks (hosts : list Host) (s : State) : State :=
  fold_left (fun st host => fadeOutOutlineGL host st) hosts s.

(** The events by which a paint is completed: the call of the promise's
    resolver and the call of [options.onPaintFinish]. *)
Definition is_completion (e : Event) : bool :=
  match e with
  | EvPaintFinish _ | EvResolve _ => true
  | _ => false
  end.

Definition completions (s : State) : list Event := filter is_completion (log s).

(** Between [s] and [s'] no promise was settled and no completion callback
    ran. *)
Definition silent (s s' : State) : Prop :=
  settled s' = settled s /\ completions s' = completions s.

(** What can happen to the engine: the producer schedules a batch, somebody
    calls [flushOutlinesGL] with its default [previousOutlines], the event
    loop gives the suspended flushes a turn, an animation frame fires, the
    throttled [recalcOutlines] runs, or [paintOutlineGL] is called. *)
Inductive Op :=
| OpSchedule (batch : list PendingOutline)
| OpFlush
| OpTurn
| OpTick (host : Host)
| OpRecalc (host : Host)
| OpPaint (o : PendingOutline).

Definition step (s : State) (op : Op) : State :=
  match op with
  | OpSchedule batch => scheduleOutlines batch s
  | OpFlush => flushOutlinesGL [] s
  | OpTurn => event_loop_turn s
  | OpTick host => fadeOutOutlineGL host s
  | OpRecalc host => recalcOutlines host s
  | OpPaint o => (paintOutlineGL o s).2
  end.

Definition run (ops : list Op) (s : State) : State := fold_left step ops s.

(** Painting a list of outlines one after the other. *)
Definition paint_all (l : list PendingOutline) (s : State) : State :=
  fold_left (fun st o => (paintOutlineGL o st).2) l s.

(** No promise has settled and every suspended flush still awaits a paint. *)
Definition all_suspended (s : State) : Prop :=
  settled s = [] /\ Forall (fun f => pendingPaints f <> []) (flights s).

(** The deletions the idle sweep asks of the GPU: the textures of the
    entries whose use count is not above 1, in cache order. *)
Definition deleted_textures (m : list (option string * TextureInfo)) : list Event :=
  (fun kv => EvDeleteTexture (texture kv.2)) <$>
    filter (fun kv => negb (1 <? useCount kv.2)%nat) m.

Definition emit_all (l : list Event) (s : State) : State :=
  fold_left (fun st e => emit e st) l s.

(** ** [getOutline] (lines 1428-1460)

    The fiber tree belongs to the instrumentation: [getNearestHostFiber] is
    a parameter, and [stateNode] gives the element of a host fiber when it
    is an [HTMLElement].  A document gives each element its chain of
    ancestors, nearest first (the successive [parentElement]s), and its
    attributes. *)

Context {Fiber : Type}.
Variable getNearestHostFiber : Fiber -> option Fiber.
Variable stateNode : Fiber -> option HTMLElement.

Record Document := mkDocument {
  ancestors : HTMLElement -> list HTMLElement;
  hasAttribute : HTMLElement -> string -> bool
}.

(** The [while] loop over [currentDomNode]: it stops at the first element
    that carries the marker. *)
Fixpoint ignored_in (doc : Document) (chain : list HTMLElement) : bool :=
  match chain with
  | [] => false
  | e :: rest =>
      if hasAttribute doc e "data-react-scan-ignore" then true
      else ignored_in doc rest
  end.

Definition shouldIgnore (doc : Document) (domNode : HTMLElement) : bool :=
  ignored_in doc (domNode :: ancestors doc domNode).

Definition getOutline (doc : Document) (host : Host) (fiber : Fiber) (render : Render)
    (s : State) : option PendingOutline * State :=
  match getNearestHostFiber fiber with
  | None => (None, s)
  | Some domFiber =>
      match stateNode domFiber with
      | None => (None, s)
      | Some domNode =>
          if shouldIgnore doc domNode then (None, s)
          else
            match getRect host domNode s with
            | (None, s1) => (None, s1)
            | (Some rc, s1) => (Some (mkPending rc domNode [render]), s1)
            end
      end
  end.

(** ** The toolbar statistics of [flushOutlinesGL] (lines 1525-1529)

    [count] and [time] are fields of [Render]. *)

Variable render_count : Render -> Z.
Variable render_time : Render -> Q.

Definition renders_count (rs : list Render) : Z :=
  fold_left (fun sum rd => sum + render_count rd) rs 0.

Definition renders_time (rs : list Render) : Q :=
  fold_left (fun sum rd => (sum + render_time rd)%Q) rs 0%Q.

Definition toolbar_stats (mergedOutlines : list PendingOutline) : Z * Q :=
  fold_left (fun acc o => (acc.1 + renders_count (renders o),
                           (acc.2 + renders_time (renders o))%Q))
            mergedOutlines (0, 0%Q).

(** ** Notions used in the further statements *)

(** What the log gained between two states consists of events that [allowed]
    accepts. *)
Definition gains (allowed : Event -> bool) (s s' : State) : Prop :=
  exists l, log s' = log s ++ l /\ Forall (fun e => allowed e = true) l.

Definition is_layout_read (e : Event) : bool :=
  match e with
  | EvComputedStyle _ | EvBoundingRect _ => true
  | _ => false
  end.

Definition is_paint_event (e : Event) : bool :=
  match e with
  | EvPaintStart _ | EvRequestFrame _ => true
  | _ => false
  end.

Definition is_texture_event (e : Event) : bool :=
  match e with
  | EvCreateTexture _ _ | EvDeleteTexture _ => true
  | _ => false
  end.

(** The GPU textures created and deleted according to a log, in order. *)
Definition created_textures (l : list Event) : list nat :=
  omap (fun e => match e with EvCreateTexture t _ => Some t | _ => None end) l.

Definition deleted_textures_of (l : list Event) : list nat :=
  omap (fun e => match e with EvDeleteTexture t => Some t | _ => None end) l.

Definition cached_textures (s : State) : list nat :=
  (fun kv => texture kv.2) <$> textureCache s.

(** Every cached label has a use count of 1, and the textures created so
    far are the cached ones together with the deleted ones. *)
Definition textures_accounted (s : State) : Prop :=
  Forall (fun kv => useCount kv.2 = 1%nat) (textureCache s) /\
  created_textures (log s) ≡ₚ cached_textures s ++ deleted_textures_of (log s).

(** The resolvers stored in the registry are pairwise distinct handles that
    the host has already handed out. *)
Definition resolvers_fresh (s : State) : Prop :=
  NoDup (resolve <$> activeOutlines s) /\
  Forall (fun p => (p < nextHandle s)%nat) (resolve <$> activeOutlines s).

(** A non-empty registry has an animation frame pending. *)
Definition frame_pending (s : State) : Prop :=
  activeOutlines s <> [] -> animationFrameId s <> None.

(** An outline without its rectangle. *)
Definition pending_sans_rect (o : PendingOutline) : HTMLElement * list Render :=
  (domNode o, renders o).

Definition active_sans_rect (a : ActiveOutline)
  : HTMLElement * list Render * Q * nat * nat * nat * option string * Color :=
  (domNode (outline a), renders (outline a), alpha a, frame a, totalFrames a,
   resolve a, text a, color a).

(** What [recalcOutlines] and the painting operations leave alone. *)
Definition engine_untouched (s s' : State) : Prop :=
  componentUpdateMap s' = componentUpdateMap s /\
  textureCache s' = textureCache s /\
  animationFrameId s' = animationFrameId s /\
  flights s' = flights s /\
  nextHandle s' = nextHandle s /\
  options s' = options s.

Definition page_unread (s s' : State) : Prop :=
  rectCache s' = rectCache s /\
  nowCalls s' = nowCalls s /\
  textureCache s' = textureCache s /\
  options s' = options s.

(** Decimal digits, for the analysis of [getOutlineKey]. *)
Definition is_digit (c : Ascii.ascii) : bool :=
  bool_decide (c ∈ ["0"; "1"; "2"; "3"; "4"; "5"; "6"; "7"; "8"; "9"]%char).

Fixpoint all_digits (str : string) : bool :=
  match str with
  | EmptyString => true
  | String c rest => is_digit c && all_digits rest
  end.

(** All the renders a list of outlines holds, in order. *)
Definition all_renders (l : list PendingOutline) : list Render :=
  concat (renders <$> l).

(** Between [s] and [s'] the label texture cache was left alone and no
    texture was created or deleted; handles are only ever handed out. *)
Definition textures_kept (s s' : State) : Prop :=
  textureCache s' = textureCache s /\
  created_textures (log s') = created_textures (log s) /\
  deleted_textures_of (log s') = deleted_textures_of (log s) /\
  (nextHandle s <= nextHandle s')%nat.

(** The texture accounting together with the freshness of texture handles. *)
Definition textures_sound (s : State) : Prop :=
  textures_accounted s /\
  NoDup (created_textures (log s)) /\
  Forall (fun t => (t < nextHandle s)%nat) (created_textures (log s)).

(** An active outline is within its fade window, the window is one of the
    two that [paintOutlineGL] assigns, and its opacity is a proportion. *)
Definition outline_bounded (a : ActiveOutline) : Prop :=
  (frame a <= totalFrames a)%nat /\
  (totalFrames a = 30%nat \/ totalFrames a = 60%nat) /\
  (0 <= alpha a)%Q /\ (alpha a <= 1)%Q.

Definition registry_sound (s : State) : Prop :=
  resolvers_fresh s /\ frame_pending s /\ Forall outline_bounded (activeOutlines s).

(** Between [s] and [s'] the pending animation frame was left alone, and
    handles were only handed out. *)
Definition loop_kept (s s' : State) : Prop :=
  animationFrameId s' = animationFrameId s /\ (nextHandle s <= nextHandle s')%nat.

(** What the assembly loop of a tick may ask of the host: reads of the
    layout and the creation of a label texture. *)
Definition is_assembly_event (e : Event) : bool :=
  match e with
  | EvComputedStyle _ | EvBoundingRect _ | EvCreateTexture _ _ => true
  | _ => false
  end.

(** One more update when the region was painted, none otherwise. *)
Definition bump (painted : bool) : nat := if painted then 1%nat else 0%nat.

(** ** The animation frames the host owes the engine

    [requestAnimationFrame] queues the callback [() => fadeOutOutlineGL(ctx)];
    the host runs a queued callback once, at a later frame.  A browser is the
    engine together with the number of callbacks the host has run. *)

Definition is_frame_request (e : Event) : bool :=
  match e with
  | EvRequestFrame _ => true
  | _ => false
  end.

Definition frames_requested (s : State) : nat :=
  length (filter (fun e => is_frame_request e = true) (log s)).

(** 1 when [animationFrameId] is set, 0 when it is null. *)
Definition armed (s : State) : nat :=
  match animationFrameId s with
  | Some _ => 1%nat
  | None => 0%nat
  end.

Record Browser := mkBrowser {
  browser_state : State;
  framesRun : nat
}.

Definition frames_queued (b : Browser) : nat :=
  (frames_requested (browser_state b) - framesRun b)%nat.

(** A tick happens only when a callback is queued; the other operations
    are those of the engine. *)
Definition browser_step (b : Browser) (op : Op) : Browser :=
  match op with
  | OpTick host =>
      if (0 <? frames_queued b)%nat
      then mkBrowser (fadeOutOutlineGL host (browser_state b)) (S (framesRun b))
      else b
  | _ => mkBrowser (step (browser_state b) op) (framesRun b)
  end.

Definition browser_run (ops : list Op) (b : Browser) : Browser :=
  fold_left browser_step ops b.

(** Between [s] and [s'] no frame was requested and the frame handle was
    left alone. *)
Definition loop_same (s s' : State) : Prop :=
  frames_requested s' = frames_requested s /\ animationFrameId s' = animationFrameId s.

(** The frames requested that are not accounted for by the frame handle. *)
Definition loop_balance (s : State) : Z :=
  Z.of_nat (frames_requested s) - Z.of_nat (armed s).

(** ** The canvas overlays ([createOverlay], lines 2643-2694;
    [createGLOverlay], lines 3084-3146)

    What both keep between events: the local flag [resizeScheduled] of
    [createOverlay], the callbacks the overlay has queued with
    [requestAnimationFrame] that the host has not run yet, the runs of
    [resize], and the calls of the throttled [recalcOutlines].  The canvas
    size that [resize] writes is output only.  Both are modelled for the
    case that the canvas gives the context asked for. *)

Record Overlay := mkOverlay {
  resizeScheduled : bool;
  queuedResizes : nat;
  resizeRuns : nat;
  recalcCalls : nat
}.

(** [resize] of [createOverlay] (lines 2664-2675). *)
Definition resize (ov : Overlay) : Overlay :=
  mkOverlay false (queuedResizes ov) (S (resizeRuns ov)) (recalcCalls ov).

(** The state [createOverlay] returns with: the flag is declared [false]
    and [resize] is called once (line 2677). *)
Definition createOverlay : Overlay := resize (mkOverlay false 0 0 0).

(** The [resize] listener (lines 2679-2687). *)
Definition onResize (ov : Overlay) : Overlay :=
  let ov1 := mkOverlay (resizeScheduled ov) (queuedResizes ov) (resizeRuns ov)
                       (S (recalcCalls ov)) in
  if negb (resizeScheduled ov1)
  then mkOverlay true (S (queuedResizes ov1)) (resizeRuns ov1) (recalcCalls ov1)
  else ov1.

(** The [scroll] listener (lines 2688-2690). *)
Definition onScroll (ov : Overlay) : Overlay :=
  mkOverlay (resizeScheduled ov) (queuedResizes ov) (resizeRuns ov) (S (recalcCalls ov)).

(** An animation frame: the host runs the callbacks queued so far, each
    once. *)
Definition onFrame (ov : Overlay) : Overlay :=
  Nat.iter (queuedResizes ov) resize
    (mkOverlay (resizeScheduled ov) 0 (resizeRuns ov) (recalcCalls ov)).

Inductive WindowEvent := WinResize | WinScroll | WinFrame.

Definition overlay_step (ov : Overlay) (ev : WindowEvent) : Overlay :=
  match ev with
  | WinResize => onResize ov
  | WinScroll => onScroll ov
  | WinFrame => onFrame ov
  end.

(** [createGLOverlay] has no flag and does not listen to [scroll]: its
    [resize] (lines 3117-3122) only sizes the canvas and the viewport, and
    its [resize] listener (lines 3126-3128) queues it at every event. *)
Record GLOverlay := mkGLOverlay {
  glQueuedResizes : nat;
  glResizeRuns : nat
}.

Definition resizeGL (ov : GLOverlay) : GLOverlay :=
  mkGLOverlay (glQueuedResizes ov) (S (glResizeRuns ov)).

(** [resize] is called once at creation (line 3124). *)
Definition createGLOverlay : GLOverlay := resizeGL (mkGLOverlay 0 0).

Definition onResizeGL (ov : GLOverlay) : GLOverlay :=
  mkGLOverlay (S (glQueuedResizes ov)) (glResizeRuns ov).

Definition onFrameGL (ov : GLOverlay) : GLOverlay :=
  Nat.iter (glQueuedResizes ov) resizeGL (mkGLOverlay 0 (glResizeRuns ov)).

Definition gl_overlay_step (ov : GLOverlay) (ev : WindowEvent) : GLOverlay :=
  match ev with
  | WinResize => onResizeGL ov
  | WinScroll => ov
  | WinFrame => onFrameGL ov
  end.

Definition is_resize (ev : WindowEvent) : bool :=
  match ev with WinResize => true | _ => false end.

Definition is_frame (ev : WindowEvent) : bool :=
  match ev with WinFrame => true | _ => false end.

Definition count_events (p : WindowEvent -> bool) (evs : list WindowEvent) : nat :=
  length (filter (fun ev => p ev = true) evs).


(** The coordinates for which the embedding of [getOutlineKey] is exact.  A
    JavaScript number holds every integer of magnitude up to 2^53 and prints
    it with all its digits; with coordinates of magnitude at most 2^52 the
    sums [x + width] and [y + height] behind [left] and [top] are exact
    too. *)
Definition safe_integer (z : Z) : Prop := - 2 ^ 52 <= z <= 2 ^ 52.

Definition safe_rect (rc : DOMRect) : Prop :=
  safe_integer (x rc) /\ safe_integer (y rc) /\
  safe_integer (width rc) /\ safe_integer (height rc).



(** * Properties *)

(** ** The geometry cache *)

Lemma computeRect_result host e s :
  (computeRect host e s).1 = liveRect host e.
Proof.
  unfold computeRect, liveRect.
  destruct (style_hidden _); [reflexivity|].
  destruct (isVisible _ _), (width _ =? 0), (height _ =? 0); reflexivity.
Qed.

Lemma computeRect_cache host e s :
  rectCache (computeRect host e s).2 =
  match liveRect host e with
  | Some rc => <[e := mkCached rc (clock host (nowCalls s))]> (rectCache s)
  | None => rectCache s
  end.
Proof.
  unfold computeRect, liveRect.
  destruct (style_hidden _); [reflexivity|].
  destruct (isVisible _ _), (width _ =? 0), (height _ =? 0); reflexivity.
Qed.

Lemma computeRect_log host e s :
  exists rest, log (computeRect host e s).2 = log s ++ EvComputedStyle e :: rest.
Proof.
  unfold computeRect.
  destruct (style_hidden _); [exists []; reflexivity|].
  destruct (negb _ || _ || _); simpl.
  - exists [EvBoundingRect e]. by rewrite <- app_assoc.
  - exists [EvBoundingRect e]. by rewrite <- app_assoc.
Qed.

Lemma not_drawable_liveRect host e :
  not_drawable host e -> liveRect host e = None.
Proof.
  unfold not_drawable, suppressed, zero_size, outside_margin, liveRect, style_hidden.
  intros H.
  destruct (bool_decide_reflect (display (getComputedStyle host e) = "none")); [done|].
  destruct (bool_decide_reflect (visibility (getComputedStyle host e) = "hidden")); [done|].
  destruct (bool_decide_reflect (opacity (getComputedStyle host e) = "0")); [done|].
  simpl. destruct H as [H|[H|H]]; [by destruct H as [?|[?|?]]| |].
  - destruct H as [H|H]; rewrite H; simpl;
      rewrite ?andb_false_r; reflexivity.
  - assert (isVisible host (getBoundingClientRect host e) = false) as ->; [|done].
    unfold isVisible, top, bottom, left, right in *.
    rewrite !andb_false_iff, !Z.leb_gt. lia.
Qed.

Lemma getRect_stale host e s :
  ~ cache_fresh host e s ->
  exists s0, getRect host e s = computeRect host e s0 /\
             rectCache s0 = rectCache s /\ log s0 = log s.
Proof.
  intros Hstale. unfold getRect.
  destruct (rectCache s !! e) as [c|] eqn:Hc; [|by exists s].
  simpl. destruct (Z.ltb_spec (clock host (nowCalls s) - 128) (timestamp c)).
  - exfalso. apply Hstale. exists c. split; [done|lia].
  - by eexists.
Qed.

(** C5, as amended: an element that has no cache entry younger than 128ms
    and is suppressed (display none, visibility hidden, opacity 0), or has
    zero width or height, or lies outside the extended viewport, gets [null]
    from [getRect] and the geometry cache is left as it was; whenever
    [getRect] returns [null] the cache is unchanged, and whenever the cache
    changes the call returned the rectangle it stored. *)
Theorem getRect_null_never_cached :
  (forall host e s,
      ~ cache_fresh host e s -> not_drawable host e ->
      (getRect host e s).1 = None /\ rectCache (getRect host e s).2 = rectCache s) /\
  (forall host e s,
      (getRect host e s).1 = None -> rectCache (getRect host e s).2 = rectCache s) /\
  (forall host e s,
      rectCache (getRect host e s).2 <> rectCache s ->
      exists rc t, (getRect host e s).1 = Some rc /\
                   rc = getBoundingClientRect host e /\
                   rectCache (getRect host e s).2 = <[e := mkCached rc t]> (rectCache s)).
Proof.
  split; [|split].
  - intros host e s Hstale Hbad.
    destruct (getRect_stale host e s Hstale) as (s0 & -> & Hc & _).
    rewrite computeRect_result, computeRect_cache.
    by rewrite (not_drawable_liveRect host e Hbad).
  - intros host e s. unfold getRect.
    destruct (rectCache s !! e) as [c|]; simpl.
    + destruct (_ <? _); [done|].
      rewrite computeRect_result, computeRect_cache.
      by intros ->.
    + rewrite computeRect_result, computeRect_cache. by intros ->.
  - intros host e s. unfold getRect.
    assert (forall rc, liveRect host e = Some rc -> rc = getBoundingClientRect host e) as Hlive.
    { unfold liveRect. intros rc. destruct (style_hidden _); [done|].
      destruct (_ && _ && _); congruence. }
    destruct (rectCache s !! e) as [c|]; simpl.
    + destruct (_ <? _); [done|].
      rewrite computeRect_result, computeRect_cache.
      destruct (liveRect host e) as [rc|] eqn:Hl; [|done].
      intros _. exists rc, (clock host (S (nowCalls s))). auto.
    + rewrite computeRect_result, computeRect_cache.
      destruct (liveRect host e) as [rc|] eqn:Hl; [|done].
      intros _. exists rc, (clock host (nowCalls s)). auto.
Qed.

(** C6: with an entry cached for the element, a call of [getRect] less than
    128ms after the entry's time stamp returns the cached rectangle, reads
    neither style nor layout and leaves the cache alone; a call 128ms or
    more after it takes the computing path: it reads the style first and its
    result is what the live page gives, whatever was cached. *)
Theorem getRect_cache_window host e s c :
  rectCache s !! e = Some c ->
  (clock host (nowCalls s) - timestamp c < 128 ->
     (getRect host e s).1 = Some (cached_rect c) /\
     log (getRect host e s).2 = log s /\
     rectCache (getRect host e s).2 = rectCache s) /\
  (128 <= clock host (nowCalls s) - timestamp c ->
     (getRect host e s).1 = liveRect host e /\
     exists rest, log (getRect host e s).2 = log s ++ EvComputedStyle e :: rest).
Proof.
  intros Hc. unfold getRect. rewrite Hc. simpl. split; intros Ht.
  - destruct (Z.ltb_spec (clock host (nowCalls s) - 128) (timestamp c)); [done|lia].
  - destruct (Z.ltb_spec (clock host (nowCalls s) - 128) (timestamp c)); [lia|].
    rewrite computeRect_result. split; [done|].
    apply (computeRect_log host e (set_nowCalls (S (nowCalls s)) s)).
Qed.

(** ** Color derivation *)






(** ** Insertion-ordered maps: lookup after update *)

Lemma omap_get_set {K V} `{EqDecision K} (k k' : K) (v : V) (m : list (K * V)) :
  omap_get k' (omap_set k v m) = if decide (k' = k) then Some v else omap_get k' m.
Proof.
  induction m as [|[k0 v0] m IH]; simpl.
  - by destruct (decide (k' = k)).
  - destruct (decide (k = k0)) as [->|Hne]; simpl.
    + by destruct (decide (k' = k0)).
    + destruct (decide (k' = k0)) as [->|Hne'].
      * by destruct (decide (k0 = k)); [congruence|].
      * apply IH.
Qed.

Lemma omap_set_keys {K V} `{EqDecision K} (k : K) (v : V) (m : list (K * V)) :
  (omap_set k v m).*1 = if omap_has k m then m.*1 else m.*1 ++ [k].
Proof.
  unfold omap_has. induction m as [|[k0 v0] m IH]; csimpl; [done|].
  destruct (decide (k = k0)) as [->|Hne]; csimpl; [done|].
  rewrite IH. by destruct (omap_get k m).
Qed.

Lemma omap_get_None {K V} `{EqDecision K} (k : K) (m : list (K * V)) :
  omap_get k m = None <-> k ∉ m.*1.
Proof.
  induction m as [|[k0 v0] m IH]; simpl.
  - split; [intros _; apply not_elem_of_nil|done].
  - rewrite not_elem_of_cons. destruct (decide (k = k0)); [naive_solver|].
    rewrite IH. naive_solver.
Qed.

Lemma omap_get_elem {K V} `{EqDecision K} (k : K) (v : V) (m : list (K * V)) :
  omap_get k m = Some v -> (k, v) ∈ m.
Proof.
  induction m as [|[k0 v0] m IH]; simpl; [done|].
  destruct (decide (k = k0)) as [->|Hne].
  - intros [= ->]. apply list_elem_of_here.
  - intros Hg. apply list_elem_of_further. auto.
Qed.

Lemma omap_set_nodup {K V} `{EqDecision K} (k : K) (v : V) (m : list (K * V)) :
  NoDup m.*1 -> NoDup (omap_set k v m).*1.
Proof.
  intros Hnd. rewrite omap_set_keys. unfold omap_has.
  destruct (omap_get k m) eqn:Hg; [done|].
  apply omap_get_None in Hg. apply NoDup_app. split; [done|].
  split; [|apply NoDup_singleton].
  intros k' Hk' ->%list_elem_of_singleton. done.
Qed.

Lemma omap_nodup_get {K V} `{EqDecision K} (k : K) (v : V) (m : list (K * V)) :
  NoDup m.*1 -> (k, v) ∈ m -> omap_get k m = Some v.
Proof.
  induction m as [|[k0 v0] m IH]; simpl.
  - intros _ Hin. by apply elem_of_nil in Hin.
  - intros [Hk0 Hnd]%NoDup_cons [Heq|Hin]%elem_of_cons.
    + injection Heq as -> ->. by destruct (decide (k0 = k0)).
    + destruct (decide (k = k0)) as [->|Hne]; [|auto].
      exfalso. apply Hk0. apply list_elem_of_fmap. by exists (k0, v).
Qed.

(** ** The merger of pending outlines *)

Lemma merged_map_snoc l o : merged_map (l ++ [o]) = merge_step (merged_map l) o.
Proof. unfold merged_map. by rewrite fold_left_app. Qed.

Lemma renders_of_snoc key l o :
  renders_of key (l ++ [o]) =
  renders_of key l ++ (if decide (getOutlineKey o = key) then renders o else []).
Proof.
  unfold renders_of. rewrite filter_app, fmap_app, concat_app. f_equal.
  rewrite filter_cons, filter_nil.
  destruct (decide (getOutlineKey o = key)); simpl; [by rewrite app_nil_r|done].
Qed.

Lemma renders_of_absent key l :
  key ∉ getOutlineKey <$> l -> renders_of key l = [].
Proof.
  unfold renders_of. induction l as [|o l IH]; [done|].
  rewrite fmap_cons, not_elem_of_cons. intros [Hne Hl].
  rewrite filter_cons. destruct (decide (getOutlineKey o = key)); [congruence|auto].
Qed.

Lemma merged_map_nodup l : NoDup (merged_map l).*1.
Proof.
  induction l as [|o l IH] using rev_ind; [apply NoDup_nil_2|].
  rewrite merged_map_snoc. unfold merge_step.
  destruct (omap_get _ _); by apply omap_set_nodup.
Qed.

Lemma merged_map_get l key :
  match omap_get key (merged_map l) with
  | Some o => getOutlineKey o = key /\ renders o = renders_of key l /\
              key ∈ getOutlineKey <$> l
  | None => key ∉ getOutlineKey <$> l
  end.
Proof.
  clear isOutlineUnstable getLabelText measureText.
  induction l as [|o l IH] using rev_ind; [apply not_elem_of_nil|].
  rewrite merged_map_snoc, renders_of_snoc, fmap_app. unfold merge_step.
  destruct (decide (getOutlineKey o = key)) as [Hk|Hk].
  - rewrite Hk.
    destruct (omap_get key (merged_map l)) as [e|] eqn:He;
      rewrite omap_get_set; destruct (decide (key = key)); try done.
    + destruct IH as (IH1 & IH2 & IH3). simpl. rewrite IH2. set_solver.
    + simpl. rewrite (renders_of_absent _ _ IH). set_solver.
  - assert (omap_get key
              match omap_get (getOutlineKey o) (merged_map l) with
              | Some existing => omap_set (getOutlineKey o) (push_renders existing o) (merged_map l)
              | None => omap_set (getOutlineKey o) o (merged_map l)
              end = omap_get key (merged_map l)) as ->.
    { destruct (omap_get (getOutlineKey o) _); rewrite omap_get_set;
        by destruct (decide (key = getOutlineKey o)); [congruence|]. }
    destruct (omap_get key (merged_map l)) as [e|].
    + rewrite app_nil_r. set_solver.
    + set_solver.
Qed.

Lemma elem_of_mergeOutlines o l :
  o ∈ mergeOutlines l <-> omap_get (getOutlineKey o) (merged_map l) = Some o.
Proof.
  unfold mergeOutlines. fold (merged_map l). split.
  - intros ([k o'] & -> & Hin)%list_elem_of_fmap. simpl.
    pose proof (omap_nodup_get _ _ _ (merged_map_nodup l) Hin) as Hg.
    pose proof (merged_map_get l k) as Hk. rewrite Hg in Hk.
    destruct Hk as (-> & _). done.
  - intros Hg%omap_get_elem. apply list_elem_of_fmap. by eexists (_, _).
Qed.

Lemma mergeOutlines_keys l :
  getOutlineKey <$> mergeOutlines l = (merged_map l).*1.
Proof.
  unfold mergeOutlines. fold (merged_map l).
  rewrite <- list_fmap_compose. apply Forall_fmap_ext_1, Forall_forall.
  intros [k o] Hin. simpl.
  pose proof (omap_nodup_get _ _ _ (merged_map_nodup l) Hin) as Hg.
  pose proof (merged_map_get l k) as Hk. rewrite Hg in Hk. by destruct Hk.
Qed.

Lemma renders_of_length key l :
  length (renders_of key l) =
  sum_list_with (fun o => if decide (getOutlineKey o = key) then length (renders o) else 0%nat) l.
Proof.
  unfold renders_of. induction l as [|o l IH]; [done|].
  rewrite filter_cons. csimpl.
  destruct (decide (getOutlineKey o = key)); csimpl; [|done].
  rewrite length_app. by rewrite IH.
Qed.

(** C4: [mergeOutlines] yields one region per distinct key of its input:
    the keys of the result are pairwise distinct and are exactly the keys of
    the input, and the render list of each result region is the
    concatenation of the render lists of the input regions with its key.
    For two regions with the same key the result is a single region whose
    render list has the sum of both lengths, in either input order; and in
    general the length of each key's render list does not depend on the
    order of the input. *)
Theorem mergeOutlines_one_region_per_key :
  (forall l : list PendingOutline,
      NoDup (getOutlineKey <$> mergeOutlines l) /\
      (forall key, key ∈ getOutlineKey <$> mergeOutlines l <-> key ∈ getOutlineKey <$> l) /\
      (forall o, o ∈ mergeOutlines l -> renders o = renders_of (getOutlineKey o) l)) /\
  (forall a c : PendingOutline,
      getOutlineKey a = getOutlineKey c ->
      (exists m, mergeOutlines [a; c] = [m] /\
                 length (renders m) = (length (renders a) + length (renders c))%nat) /\
      (exists m, mergeOutlines [c; a] = [m] /\
                 length (renders m) = (length (renders a) + length (renders c))%nat)) /\
  (forall l l' : list PendingOutline,
      l ≡ₚ l' ->
      forall o, o ∈ mergeOutlines l ->
      exists o', o' ∈ mergeOutlines l' /\ getOutlineKey o' = getOutlineKey o /\
                 length (renders o') = length (renders o)).
Proof.
  split; [|split].
  - intros l. split; [|split].
    + rewrite mergeOutlines_keys. apply merged_map_nodup.
    + intros key. rewrite mergeOutlines_keys.
      pose proof (merged_map_get l key) as Hk.
      destruct (omap_get key (merged_map l)) as [o|] eqn:Hg.
      * destruct Hk as (_ & _ & Hin). split; [done|]. intros _.
        apply omap_get_elem in Hg. apply list_elem_of_fmap. by exists (key, o).
      * apply omap_get_None in Hg. done.
    + intros o Hin%elem_of_mergeOutlines.
      pose proof (merged_map_get l (getOutlineKey o)) as Hk.
      rewrite Hin in Hk. by destruct Hk as (_ & ? & _).
  - intros a c Hkey. split.
    + exists (push_renders a c). unfold mergeOutlines. simpl. unfold merge_step at 2. simpl.
      unfold merge_step. simpl. rewrite <- Hkey.
      destruct (decide (getOutlineKey a = getOutlineKey a)); [|done]. simpl.
      destruct (decide (getOutlineKey a = getOutlineKey a)); [|done]. simpl.
      split; [done|]. apply length_app.
    + exists (push_renders c a). unfold mergeOutlines. simpl. unfold merge_step at 2. simpl.
      unfold merge_step. simpl. rewrite Hkey.
      destruct (decide (getOutlineKey c = getOutlineKey c)); [|done]. simpl.
      destruct (decide (getOutlineKey c = getOutlineKey c)); [|done]. simpl.
      split; [done|]. rewrite length_app. lia.
  - intros l l' Hperm o Hin.
    pose proof Hin as Hg%elem_of_mergeOutlines.
    pose proof (merged_map_get l (getOutlineKey o)) as Hk. rewrite Hg in Hk.
    destruct Hk as (_ & Hr & Hmem).
    pose proof (merged_map_get l' (getOutlineKey o)) as Hk'.
    destruct (omap_get (getOutlineKey o) (merged_map l')) as [o'|] eqn:Hg'.
    + destruct Hk' as (Hkey' & Hr' & _). exists o'. split; [|split; [done|]].
      * apply elem_of_mergeOutlines. by rewrite Hkey'.
      * rewrite Hr, Hr', !renders_of_length. by rewrite Hperm.
    + exfalso. apply Hk'. by rewrite <- Hperm.
Qed.

(** ** Painting into the registry *)

Lemma paintOutlineGL_active o s :
  activeOutlines (paintOutlineGL o s).2 =
  match find (same_key (getOutlineKey o)) (activeOutlines s) with
  | Some _ => refresh_first (getOutlineKey o) o (paint_frames o) (paint_color o s)
                            (activeOutlines s)
  | None => activeOutlines s ++
            [mkActive o 1 0 (paint_frames o) (nextHandle s)
                      (getLabelText (renders o)) (paint_color o s)]
  end.
Proof.
  unfold paintOutlineGL, paint_color, paint_frames, request_frame. simpl.
  destruct (onPaintStart (options s)); simpl;
    rewrite lookup_insert_eq; simpl; rewrite Nat.add_1_r;
    destruct (find _ (activeOutlines s)); simpl;
    destruct (animationFrameId s); reflexivity.
Qed.

Lemma find_same_key_None key l :
  find (same_key key) l = None <-> key ∉ active_keys l.
Proof.
  unfold active_keys. induction l as [|a l IH]; csimpl.
  - split; [intros _; apply not_elem_of_nil|done].
  - unfold same_key at 1. rewrite not_elem_of_cons.
    destruct (bool_decide_reflect (getOutlineKey (outline a) = key)); [naive_solver|].
    rewrite IH. naive_solver.
Qed.

Lemma refresh_first_split key o frames c l :
  key ∈ active_keys l ->
  exists l1 a l2,
    l = l1 ++ a :: l2 /\ getOutlineKey (outline a) = key /\ (key ∉ active_keys l1) /\
    refresh_first key o frames c l = l1 ++ (refresh o frames c a :: l2).
Proof.
  unfold active_keys. induction l as [|a l IH]; [by intros ?%elem_of_nil|].
  rewrite fmap_cons. intros Hin. simpl. unfold same_key at 1.
  destruct (bool_decide_reflect (getOutlineKey (outline a) = key)) as [Hk|Hk].
  - exists [], a, l. split; [done|]. split; [done|]. split; [apply not_elem_of_nil|done].
  - apply elem_of_cons in Hin as [Heq|Hin]; [congruence|].
    destruct (IH Hin) as (l1 & a' & l2 & -> & Hk' & Hl1 & Hr).
    exists (a :: l1), a', l2. rewrite Hr. split; [done|]. split; [done|].
    split; [|done]. rewrite fmap_cons, not_elem_of_cons. done.
Qed.

Lemma refresh_same_key o frames c a :
  getOutlineKey (outline a) = getOutlineKey o ->
  getOutlineKey (outline (refresh o frames c a)) = getOutlineKey (outline a).
Proof. intros Hk. unfold getOutlineKey in *. simpl. by rewrite Hk. Qed.

(** C3, as amended: when the registry already holds an active outline with
    the key of the painted outline, [paintOutlineGL] rewrites the first such
    entry in place: the new renders are appended to its list, its rectangle
    becomes the painted one, its frame 0, its [totalFrames] and color the
    freshly derived ones; nothing is added, so the length and the keys of the
    registry are unchanged.  Hence no call of [paintOutlineGL], in either
    branch, makes two entries share a key when no two did before. *)
Theorem paintOutlineGL_refresh_in_place o s :
  (getOutlineKey o ∈ active_keys (activeOutlines s) ->
   exists l1 a l2,
     activeOutlines s = l1 ++ a :: l2 /\
     getOutlineKey (outline a) = getOutlineKey o /\
     (getOutlineKey o ∉ active_keys l1) /\
     activeOutlines (paintOutlineGL o s).2 =
       l1 ++ (mkActive (mkPending (rect o) (domNode (outline a))
                                  (renders (outline a) ++ renders o))
                       1 0 (if isOutlineUnstable o then 60 else 30)%nat (resolve a) (text a)
                       (gradient (intensity
                          (S (default 0%nat (componentUpdateMap s !! getOutlineKey o)))
                          (default 100 (maxRenders (options s)))))
              :: l2) /\
     length (activeOutlines (paintOutlineGL o s).2) = length (activeOutlines s) /\
     active_keys (activeOutlines (paintOutlineGL o s).2) = active_keys (activeOutlines s)) /\
  (NoDup (active_keys (activeOutlines s)) ->
   NoDup (active_keys (activeOutlines (paintOutlineGL o s).2))).
Proof.
  split.
  - intros Hin. rewrite paintOutlineGL_active.
    destruct (find _ _) as [found|] eqn:Hf; [|by apply find_same_key_None in Hf].
    destruct (refresh_first_split _ o (paint_frames o) (paint_color o s) _ Hin)
      as (l1 & a & l2 & Hl & Hk & Hl1 & Hr).
    exists l1, a, l2. rewrite Hr, Hl. split; [done|]. split; [done|].
    split; [done|]. split; [done|]. split.
    + by rewrite !length_app.
    + unfold active_keys. rewrite !fmap_app, !fmap_cons.
      by rewrite refresh_same_key.
  - intros Hnd. rewrite paintOutlineGL_active.
    destruct (find _ _) as [found|] eqn:Hf.
    + assert (getOutlineKey o ∈ active_keys (activeOutlines s)) as Hin.
      { destruct (decide (getOutlineKey o ∈ active_keys (activeOutlines s))) as [|Hno];
          [done|]. apply find_same_key_None in Hno. congruence. }
      destruct (refresh_first_split _ o (paint_frames o) (paint_color o s) _ Hin)
        as (l1 & a' & l2 & Hl & Hk & Hl1 & Hr).
      rewrite Hr. rewrite Hl in Hnd. unfold active_keys in *.
      rewrite !fmap_app, !fmap_cons in *. by rewrite refresh_same_key.
    + apply find_same_key_None in Hf. unfold active_keys in *.
      rewrite fmap_app. apply NoDup_app. split; [done|]. simpl. split.
      * intros k Hk ->%list_elem_of_singleton. done.
      * apply NoDup_singleton.
Qed.

(** ** The tick *)

Lemma assemble_one_view host a s :
  frame_view (assemble_one host a s).1 = advance 1 (frame_view a).
Proof.
  unfold assemble_one, frame_view, advance.
  destruct (getRect _ _ _) as [[rc|] s2]; simpl; by rewrite Nat.add_1_r.
Qed.

Lemma assemble_all_views host l s :
  frame_view <$> (assemble_all host l s).1 = advance 1 <$> (frame_view <$> l).
Proof.
  revert s. induction l as [|a l IH]; intros s; [done|]. simpl.
  pose proof (assemble_one_view host a s) as Ha.
  destruct (assemble_one host a s) as [a' s1]. specialize (IH s1).
  destruct (assemble_all host l s1) as [l' s2]. csimpl in *. by rewrite Ha, IH.
Qed.

Lemma drawOutlines_active host s :
  activeOutlines (drawOutlines host s).2 =
  if drawable host then (assemble_all host (activeOutlines s) s).1 else activeOutlines s.
Proof.
  unfold drawOutlines, drawable, assembleOutlinesDrawArraysInstanced.
  destruct (programValid host), (programLinked host), (attribsFound host); simpl; try done.
  by destruct (assemble_all _ _ _).
Qed.

Lemma sweep_textures_active m s : activeOutlines (sweep_textures m s).2 = activeOutlines s.
Proof.
  revert s. induction m as [|[k info] m IH]; intros s; [done|]. simpl.
  destruct (1 <? useCount info)%nat.
  - specialize (IH s). by destruct (sweep_textures m s).
  - specialize (IH (emit (EvDeleteTexture (texture info)) s)).
    by destruct (sweep_textures m _).
Qed.

Lemma idle_cleanup_active s : activeOutlines (idle_cleanup s) = activeOutlines s.
Proof.
  unfold idle_cleanup.
  pose proof (sweep_textures_active (textureCache s)
                (set_rectCache ∅ (set_updateMap ∅ (set_frameId None s)))) as Hs.
  simpl in *. by destruct (sweep_textures _ _).
Qed.

Lemma expired_view a : expired a = negb (alive 0 (frame_view a)).
Proof.
  unfold expired, alive, frame_view. simpl. rewrite Nat.add_0_r.
  destruct (Nat.ltb_spec (totalFrames a) (frame a)), (Nat.leb_spec (frame a) (totalFrames a));
    simpl; (done || lia).
Qed.

Lemma filter_views (l : list ActiveOutline) :
  frame_view <$> filter (fun a => negb (expired a)) l =
  filter (fun v => alive 0 v) (frame_view <$> l).
Proof.
  induction l as [|a l IH]; [done|].
  rewrite fmap_cons, !filter_cons, expired_view, negb_involutive.
  destruct (alive 0 (frame_view a)); csimpl; by rewrite IH.
Qed.

Lemma request_frame_active s : activeOutlines (request_frame s) = activeOutlines s.
Proof. reflexivity. Qed.

Lemma fadeOutOutlineGL_views host s :
  frame_view <$> activeOutlines (fadeOutOutlineGL host s) =
  filter (fun v => alive 0 v)
         ((if drawable host then advance 1 else id) <$> (frame_view <$> activeOutlines s)).
Proof.
  unfold fadeOutOutlineGL.
  destruct (activeOutlines s) as [|a l] eqn:Hact.
  - rewrite idle_cleanup_active, Hact. done.
  - pose proof (drawOutlines_active host s) as Hd.
    destruct (drawOutlines host s) as [ok s1]. cbn [snd] in Hd.
    rewrite request_frame_active. cbn [activeOutlines set_active].
    rewrite filter_views, Hd, Hact.
    destruct (drawable host).
    + by rewrite assemble_all_views.
    + by rewrite list_fmap_id.
Qed.

Lemma alive_spec k (v : nat * nat * nat) : alive k v <-> (v.1.2 + k <= v.2)%nat.
Proof. unfold alive. rewrite Is_true_true. apply Nat.leb_le. Qed.

Lemma advance_S k (v : nat * nat * nat) : advance 1 (advance k v) = advance (S k) v.
Proof. unfold advance. simpl. do 2 f_equal. lia. Qed.

Lemma advance_alive_step k (l : list (nat * nat * nat)) :
  filter (fun v => alive 0 v) (advance 1 <$> (advance k <$> filter (fun v => alive k v) l)) =
  advance (S k) <$> filter (fun v => alive (S k) v) l.
Proof.
  induction l as [|v l IH]; [done|].
  rewrite !filter_cons.
  destruct (decide (alive k v)) as [Hk|Hk], (decide (alive (S k) v)) as [HSk|HSk];
    csimpl; rewrite ?filter_cons, ?advance_S.
  - rewrite decide_True; [by rewrite IH|].
    apply alive_spec. apply alive_spec in HSk. unfold advance. simpl. lia.
  - rewrite decide_False; [done|].
    rewrite alive_spec. rewrite alive_spec in HSk. unfold advance. simpl. lia.
  - exfalso. apply Hk. apply alive_spec. apply alive_spec in HSk. lia.
  - done.
Qed.

Lemma ticks_snoc hosts host s :
  ticks (hosts ++ [host]) s = fadeOutOutlineGL host (ticks hosts s).
Proof. unfold ticks. by rewrite fold_left_app. Qed.

Lemma advance_alive_first (l : list (nat * nat * nat)) :
  filter (fun v => alive 0 v) (advance 1 <$> l) =
  advance 1 <$> filter (fun v => alive 1 v) l.
Proof.
  induction l as [|v l IH]; [done|].
  csimpl. rewrite !filter_cons.
  destruct (decide (alive 0 (advance 1 v))) as [H0|H0], (decide (alive 1 v)) as [H1|H1];
    csimpl; rewrite ?IH; try done; exfalso.
  - apply H1. apply alive_spec. apply alive_spec in H0. unfold advance in H0. simpl in H0. lia.
  - apply H0. apply alive_spec. apply alive_spec in H1. unfold advance. simpl. lia.
Qed.

Lemma ticks_views hosts s :
  hosts <> [] ->
  Forall (fun host => drawable host = true) hosts ->
  frame_view <$> activeOutlines (ticks hosts s) =
  advance (length hosts) <$>
    filter (fun v => alive (length hosts) v) (frame_view <$> activeOutlines s).
Proof.
  induction hosts as [|host hosts IH] using rev_ind; [done|].
  intros _ [Hhosts Hhost%Forall_inv]%Forall_app. simpl in Hhost.
  rewrite ticks_snoc, fadeOutOutlineGL_views, Hhost, length_app, Nat.add_1_r.
  destruct hosts as [|host0 hosts0].
  - apply advance_alive_first.
  - rewrite IH; [|done|done]. apply advance_alive_step.
Qed.

(** ** Frame conditions

    What an operation leaves alone is stated once, for a relation [R]
    between the state before and the state after that is closed under the
    elementary updates the operation is made of. *)

Section Frame.

Variable R : State -> State -> Prop.
Hypothesis R_refl : forall s, R s s.
Hypothesis R_trans : forall s1 s2 s3, R s1 s2 -> R s2 s3 -> R s1 s3.
Hypothesis R_emit : forall e s, is_completion e = false -> R s (emit e s).
Hypothesis R_nowCalls : forall v s, R s (set_nowCalls v s).
Hypothesis R_nextHandle : forall v s, R s (set_nextHandle v s).
Hypothesis R_rectCache : forall v s, R s (set_rectCache v s).
Hypothesis R_textureCache : forall v s, R s (set_textureCache v s).
Hypothesis R_updateMap : forall v s, R s (set_updateMap v s).
Hypothesis R_frameId : forall v s, R s (set_frameId v s).
Hypothesis R_active : forall v s, R s (set_active v s).

Ltac peel :=
  repeat first
    [ apply R_refl
    | eapply R_trans;
      [| first [ apply R_emit; reflexivity | apply R_nowCalls | apply R_nextHandle
               | apply R_rectCache | apply R_textureCache | apply R_updateMap
               | apply R_frameId | apply R_active ] ] ].

Lemma frame_computeRect host e s : R s (computeRect host e s).2.
Proof.
  unfold computeRect. destruct (style_hidden _); cbn [snd]; [peel|].
  destruct (negb _ || _ || _); cbn [snd performance_now]; peel.
Qed.

Lemma frame_getRect host e s : R s (getRect host e s).2.
Proof.
  unfold getRect. destruct (rectCache s !! e); [|apply frame_computeRect].
  cbn [performance_now]. destruct (_ <? _); cbn [snd]; [peel|].
  eapply R_trans; [|apply frame_computeRect]. peel.
Qed.

Lemma frame_createTextTexture label s : R s (createTextTexture label s).2.
Proof.
  unfold createTextTexture. destruct (omap_get _ _); cbn [snd fresh_handle]; peel.
Qed.

Lemma frame_request_frame s : R s (request_frame s).
Proof. unfold request_frame. cbn [fresh_handle]. peel. Qed.

Lemma frame_paintOutlineGL o s : R s (paintOutlineGL o s).2.
Proof.
  unfold paintOutlineGL. cbn [fresh_handle snd].
  set (s1 := if onPaintStart _ then _ else _).
  assert (R s s1) as H1 by (subst s1; destruct (onPaintStart _); peel).
  clearbody s1.
  set (s3 := match find _ _ with Some _ => _ | None => _ end).
  assert (R s1 s3) as H3 by (subst s3; destruct (find _ _); peel).
  clearbody s3.
  eapply R_trans; [exact H1|]. eapply R_trans; [exact H3|].
  destruct (animationFrameId s3); [apply R_refl|apply frame_request_frame].
Qed.

Lemma frame_paint_all l s : R s (paint_all l s).
Proof.
  unfold paint_all. revert s. induction l as [|o l IH]; intros s; [apply R_refl|].
  cbn [fold_left]. eapply R_trans; [apply frame_paintOutlineGL|apply IH].
Qed.

Lemma frame_assemble_one host a s : R s (assemble_one host a s).2.
Proof.
  unfold assemble_one.
  set (s1 := if _ && _ then _ else _).
  assert (R s s1) as H1.
  { subst s1. destruct (_ && _); [apply frame_createTextTexture|apply R_refl]. }
  clearbody s1.
  pose proof (frame_getRect host (domNode (outline a)) s1) as H2.
  destruct (getRect _ _ _) as [rc s2]. cbn [snd] in *.
  eapply R_trans; eauto.
Qed.

Lemma frame_assemble_all host l s : R s (assemble_all host l s).2.
Proof.
  revert s. induction l as [|a l IH]; intros s; [apply R_refl|]. cbn [assemble_all].
  pose proof (frame_assemble_one host a s) as H1.
  destruct (assemble_one host a s) as [a' s1]. specialize (IH s1).
  destruct (assemble_all host l s1) as [l' s2]. cbn [snd] in *.
  eapply R_trans; eauto.
Qed.

Lemma frame_drawOutlines host s : R s (drawOutlines host s).2.
Proof.
  unfold drawOutlines, assembleOutlinesDrawArraysInstanced.
  destruct (programValid host), (programLinked host), (attribsFound host);
    cbn [negb snd]; try apply R_refl.
  pose proof (frame_assemble_all host (activeOutlines s) s) as H1.
  destruct (assemble_all _ _ _) as [l s1]. cbn [snd] in *.
  eapply R_trans; [exact H1|]. peel.
Qed.

Lemma frame_sweep_textures m s : R s (sweep_textures m s).2.
Proof.
  revert s. induction m as [|[k info] m IH]; intros s; [apply R_refl|].
  cbn [sweep_textures]. destruct (1 <? useCount info)%nat.
  - specialize (IH s). by destruct (sweep_textures m s).
  - specialize (IH (emit (EvDeleteTexture (texture info)) s)).
    destruct (sweep_textures m _). cbn [snd] in *.
    eapply R_trans; [|exact IH]. peel.
Qed.

Lemma frame_idle_cleanup s : R s (idle_cleanup s).
Proof.
  unfold idle_cleanup.
  set (s3 := set_rectCache _ _).
  assert (R s s3) as H3 by (subst s3; peel).
  pose proof (frame_sweep_textures (textureCache s3) s3) as Hs.
  destruct (sweep_textures _ _) as [swept s4]. cbn [snd] in *.
  eapply R_trans; [exact H3|]. eapply R_trans; [exact Hs|]. peel.
Qed.

Lemma frame_fadeOutOutlineGL host s : R s (fadeOutOutlineGL host s).
Proof.
  unfold fadeOutOutlineGL. destruct (activeOutlines s); [apply frame_idle_cleanup|].
  pose proof (frame_drawOutlines host s) as H1.
  destruct (drawOutlines host s) as [ok s1]. cbn [snd] in H1.
  eapply R_trans; [exact H1|].
  eapply R_trans; [|apply frame_request_frame]. peel.
Qed.

(** [recalcOutlines] also rewrites the queue. *)
Hypothesis R_scheduled : forall v s, R s (set_scheduled v s).

Lemma frame_recalc_scheduled host l s : R s (recalc_scheduled host l s).2.
Proof.
  revert s. induction l as [|o l IH]; intros s; [apply R_refl|]. cbn [recalc_scheduled].
  specialize (IH s). destruct (recalc_scheduled host l s) as [kept s1].
  pose proof (frame_getRect host (domNode o) s1) as H2.
  destruct (getRect _ _ _) as [[rc|] s2]; cbn [snd] in *; eapply R_trans; eauto.
Qed.

Lemma frame_recalc_active host l s : R s (recalc_active host l s).2.
Proof.
  revert s. induction l as [|a l IH]; intros s; [apply R_refl|]. cbn [recalc_active].
  specialize (IH s). destruct (recalc_active host l s) as [kept s1].
  pose proof (frame_getRect host (domNode (outline a)) s1) as H2.
  destruct (getRect _ _ _) as [[rc|] s2]; cbn [snd] in *; eapply R_trans; eauto.
Qed.

Lemma frame_recalcOutlines host s : R s (recalcOutlines host s).
Proof.
  unfold recalcOutlines.
  pose proof (frame_recalc_scheduled host (scheduledOutlines s) s) as H1.
  destruct (recalc_scheduled _ _ _) as [q s1]. cbn [snd] in H1.
  pose proof (frame_recalc_active host (activeOutlines s1) s1) as H2.
  destruct (recalc_active _ _ _) as [acts s2]. cbn [snd] in H2.
  eapply R_trans; [exact H1|]. eapply R_trans; [exact H2|].
  eapply R_trans; [apply R_scheduled|apply R_active].
Qed.

(** [flushOutlinesGL] also records a suspended flush. *)
Hypothesis R_flights : forall v s, R s (set_flights v s).

Lemma frame_paint_fold previous l acc :
  R acc.2 (fold_left (paint_unless_previous previous) l acc).2.
Proof.
  revert acc. induction l as [|o l IH]; intros acc; [apply R_refl|]. cbn [fold_left].
  eapply R_trans; [|apply IH].
  destruct acc as [awaited s]. unfold paint_unless_previous.
  destruct (omap_has _ _); [apply R_refl|].
  pose proof (frame_paintOutlineGL o s) as H1.
  by destruct (paintOutlineGL o s).
Qed.

Lemma frame_flushOutlinesGL previous s : R s (flushOutlinesGL previous s).
Proof.
  unfold flushOutlinesGL. destruct (scheduledOutlines s) as [|o0 q]; [apply R_refl|].
  pose proof (frame_paint_fold previous
                (mergeOutlines ((o0 :: q) ++ scheduledOutlines (set_scheduled [] s)))
                ([], set_scheduled [] (set_scheduled [] s))) as H1.
  destruct (fold_left _ _ _) as [awaited s3]. cbn [snd] in H1.
  eapply R_trans; [|apply R_flights]. eapply R_trans; [|exact H1].
  eapply R_trans; apply R_scheduled.
Qed.

Lemma frame_resume_flight s f : R s (resume_flight s f).
Proof.
  unfold resume_flight. destruct (pendingPaints _); [|apply R_flights].
  destruct (scheduledOutlines s); [apply R_refl|apply frame_flushOutlinesGL].
Qed.

Lemma frame_event_loop_turn s : R s (event_loop_turn s).
Proof.
  unfold event_loop_turn.
  assert (forall fs st, R st (fold_left resume_flight fs st)) as Hfold.
  { induction fs as [|f fs IH]; intros st; [apply R_refl|]. cbn [fold_left].
    eapply R_trans; [apply frame_resume_flight|apply IH]. }
  eapply R_trans; [apply R_flights|apply Hfold].
Qed.

Lemma frame_step s op : R s (step s op).
Proof.
  destruct op; cbn [step].
  - apply R_scheduled.
  - apply frame_flushOutlinesGL.
  - apply frame_event_loop_turn.
  - apply frame_fadeOutOutlineGL.
  - apply frame_recalcOutlines.
  - apply frame_paintOutlineGL.
Qed.

Lemma frame_run ops s : R s (run ops s).
Proof.
  unfold run. revert s. induction ops as [|op ops IH]; intros s; [apply R_refl|].
  cbn [fold_left]. eapply R_trans; [apply frame_step|apply IH].
Qed.

End Frame.

(** ** No operation completes a paint *)

Lemma silent_refl s : silent s s.
Proof. by split. Qed.

Lemma silent_trans s1 s2 s3 : silent s1 s2 -> silent s2 s3 -> silent s1 s3.
Proof. intros [H1 H2] [H3 H4]. split; congruence. Qed.

Lemma silent_emit e s : is_completion e = false -> silent s (emit e s).
Proof.
  intros He. split; [done|]. unfold completions. simpl.
  rewrite filter_app, filter_cons, He. simpl. apply app_nil_r.
Qed.

(** Calling a stored resolver would not be silent. *)
Lemma run_resolve_settles a s :
  settled (run_resolve a s) = settled s ++ [resolve a] /\ ~ silent s (run_resolve a s).
Proof.
  assert (settled (run_resolve a s) = settled s ++ [resolve a]) as Hs.
  { unfold run_resolve. by destruct (onPaintFinish _). }
  split; [done|]. intros [Hsame _]. rewrite Hs in Hsame.
  apply (f_equal length) in Hsame. rewrite length_app in Hsame. simpl in Hsame. lia.
Qed.

Lemma silent_run ops s : silent s (run ops s).
Proof.
  apply frame_run;
    first [ exact silent_refl | exact silent_trans | exact silent_emit
          | by intros; split ].
Qed.

Lemma silent_fadeOutOutlineGL host s : silent s (fadeOutOutlineGL host s).
Proof. apply (silent_run [OpTick host]). Qed.

Lemma silent_recalcOutlines host s : silent s (recalcOutlines host s).
Proof. apply (silent_run [OpRecalc host]). Qed.

Lemma silent_paintOutlineGL o s : silent s (paintOutlineGL o s).2.
Proof. apply (silent_run [OpPaint o]). Qed.

(** ** The flush of the scheduled queue *)

Lemma keep_flights_paint_all l s : flights (paint_all l s) = flights s.
Proof.
  apply (frame_paint_all (fun s1 s2 => flights s2 = flights s1));
    intros; first [done | congruence].
Qed.

Lemma keep_queue_paint_all l s : scheduledOutlines (paint_all l s) = scheduledOutlines s.
Proof.
  apply (frame_paint_all (fun s1 s2 => scheduledOutlines s2 = scheduledOutlines s1));
    intros; first [done | congruence].
Qed.

Lemma keep_flights_tick host s : flights (fadeOutOutlineGL host s) = flights s.
Proof.
  apply (frame_fadeOutOutlineGL (fun s1 s2 => flights s2 = flights s1));
    intros; first [done | congruence].
Qed.

Lemma keep_flights_recalc host s : flights (recalcOutlines host s) = flights s.
Proof.
  apply (frame_recalcOutlines (fun s1 s2 => flights s2 = flights s1));
    intros; first [done | congruence].
Qed.

Lemma keep_flights_paint o s : flights (paintOutlineGL o s).2 = flights s.
Proof. apply (keep_flights_paint_all [o]). Qed.

Lemma paint_fold_top l awaited s :
  exists painted,
    fold_left (paint_unless_previous []) l (awaited, s) = (awaited ++ painted, paint_all l s) /\
    painted.*2 = l.
Proof.
  revert awaited s. induction l as [|o l IH]; intros awaited s.
  - exists []. by rewrite app_nil_r.
  - cbn [fold_left]. unfold paint_unless_previous at 2. cbn [omap_has omap_get].
    unfold paint_all. cbn [fold_left]. fold (paint_all l (paintOutlineGL o s).2).
    destruct (paintOutlineGL o s) as [p s1]. cbn [snd].
    destruct (IH (awaited ++ [(p, getOutlineKey o, o)]) s1) as (painted & -> & Hp).
    exists ((p, getOutlineKey o, o) :: painted). rewrite <- app_assoc. csimpl.
    by rewrite Hp.
Qed.

Lemma mergeOutlines_nonempty l : l <> [] -> mergeOutlines l <> [].
Proof.
  destruct l as [|o l]; [done|]. intros _ Hnil.
  pose proof (merged_map_get (o :: l) (getOutlineKey o)) as Hk.
  assert (merged_map (o :: l) = []) as Hm.
  { unfold mergeOutlines in Hnil. fold (merged_map (o :: l)) in Hnil.
    by apply fmap_nil_inv in Hnil. }
  rewrite Hm in Hk. cbn [omap_get] in Hk. apply Hk. rewrite fmap_cons. apply list_elem_of_here.
Qed.

Lemma flushOutlinesGL_top s :
  scheduledOutlines s <> [] ->
  exists awaited,
    flushOutlinesGL [] s =
      set_flights (flights s ++ [mkFlight awaited []])
                  (paint_all (mergeOutlines (scheduledOutlines s)) (set_scheduled [] s)) /\
    awaited.*2 = mergeOutlines (scheduledOutlines s) /\
    awaited <> [].
Proof.
  intros Hq. unfold flushOutlinesGL.
  destruct (scheduledOutlines s) as [|o0 q] eqn:Hs; [done|].
  cbn [scheduledOutlines set_scheduled]. rewrite app_nil_r.
  destruct (paint_fold_top (mergeOutlines (o0 :: q)) [] (set_scheduled [] s))
    as (painted & Hfold & Hp).
  change (set_scheduled [] (set_scheduled [] s)) with (set_scheduled [] s).
  rewrite Hfold. cbn [app]. exists painted.
  rewrite keep_flights_paint_all. split; [done|]. split; [done|].
  intros ->. by apply (mergeOutlines_nonempty (o0 :: q)).
Qed.

Lemma paint_settled_nothing (w : nat * string * PendingOutline) : paint_settled [] w = false.
Proof. unfold paint_settled. apply bool_decide_eq_false_2, not_elem_of_nil. Qed.

Lemma settle_paints_nothing f : settle_paints [] f = f.
Proof.
  destruct f as [pending previous]. unfold settle_paints. cbn [pendingPaints newPreviousOutlines].
  assert (filter (fun w => negb (paint_settled [] w)) pending = pending) as ->.
  { induction pending as [|w pending IH]; [done|].
    rewrite filter_cons, paint_settled_nothing. cbn. by rewrite IH. }
  assert (filter (fun w => paint_settled [] w) pending = []) as ->; [|done].
  induction pending as [|w pending IH]; [done|].
  rewrite filter_cons, paint_settled_nothing. cbn. by rewrite IH.
Qed.

Lemma resume_flights_suspended fs parked s :
  settled s = [] ->
  Forall (fun f => pendingPaints f <> []) fs ->
  fold_left resume_flight fs (set_flights parked s) = set_flights (parked ++ fs) s.
Proof.
  intros Hs. revert parked. induction fs as [|f fs IH]; intros parked Hfs.
  - by rewrite app_nil_r.
  - apply Forall_cons in Hfs as [Hf Hfs]. cbn [fold_left].
    assert (resume_flight (set_flights parked s) f = set_flights (parked ++ [f]) s) as ->.
    { unfold resume_flight. cbn [settled set_flights]. rewrite Hs, settle_paints_nothing.
      destruct (pendingPaints f); [done|]. reflexivity. }
    rewrite IH by done. by rewrite <- app_assoc.
Qed.

Lemma event_loop_turn_suspended s : all_suspended s -> event_loop_turn s = s.
Proof.
  intros [Hs Hfs]. unfold event_loop_turn.
  rewrite resume_flights_suspended by done. by destruct s.
Qed.

Lemma all_suspended_step s op : all_suspended s -> all_suspended (step s op).
Proof.
  intros Hsusp. pose proof Hsusp as [Hs Hfs].
  destruct (silent_run [op] s) as [Hsettled _]. cbn [run fold_left] in Hsettled.
  split; [congruence|].
  destruct op; cbn [step].
  - done.
  - destruct (scheduledOutlines s) as [|o0 q] eqn:Hq.
    + unfold flushOutlinesGL. by rewrite Hq.
    + destruct (flushOutlinesGL_top s) as (awaited & -> & _ & Hne); [by rewrite Hq|].
      cbn [flights set_flights]. apply Forall_app. split; [done|].
      by apply Forall_singleton.
  - by rewrite event_loop_turn_suspended.
  - by rewrite keep_flights_tick.
  - by rewrite keep_flights_recalc.
  - by rewrite keep_flights_paint.
Qed.

Lemma all_suspended_run ops s : all_suspended s -> all_suspended (run ops s).
Proof.
  unfold run. revert s. induction ops as [|op ops IH]; intros s Hs; [done|].
  cbn [fold_left]. apply IH. by apply all_suspended_step.
Qed.

Lemma turns_suspended n s : all_suspended s -> Nat.iter n event_loop_turn s = s.
Proof.
  intros Hs. induction n as [|n IH]; [done|].
  rewrite Nat.iter_succ, IH. by apply event_loop_turn_suspended.
Qed.

(** C1, the defect: a batch that arrives while a flush is awaiting its
    paints is never taken by that flush.  In any state the engine can reach,
    after a non-empty batch has been scheduled, a call of [flushOutlinesGL]
    with its default [previousOutlines] empties the queue and is left
    suspended on at least one paint promise; since the resolver of a paint
    promise is never called, the part of the flush after its [await], the
    re-flush of what was scheduled meanwhile, is never reached.  A batch
    scheduled after the call stays in the queue, whole, and none of its
    regions reaches the registry, however many turns the event loop takes;
    only another call of [flushOutlinesGL] takes it, and that call leaves a
    second flush suspended beside the first. *)
Theorem flushOutlinesGL_never_takes_late_batch opts ops o rest o' rest' n :
  let s := run ops (initial opts) in
  let flushed := flushOutlinesGL [] (scheduleOutlines (o :: rest) s) in
  let later := Nat.iter n event_loop_turn (scheduleOutlines (o' :: rest') flushed) in
  scheduledOutlines flushed = [] /\
  (exists awaited,
      flights flushed = flights s ++ [mkFlight awaited []] /\ awaited <> []) /\
  scheduledOutlines later = o' :: rest' /\
  activeOutlines later = activeOutlines flushed /\
  flights later = flights flushed /\
  length (flights (flushOutlinesGL [] later)) = S (length (flights flushed)).
Proof.
  cbn zeta.
  assert (all_suspended (run ops (initial opts))) as Hs.
  { apply all_suspended_run. split; [done|]. apply Forall_nil_2. }
  set (s := run ops (initial opts)) in *. clearbody s.
  pose proof (all_suspended_step _ OpFlush
                (all_suspended_step s (OpSchedule (o :: rest)) Hs)) as Hflushed.
  cbn [step] in Hflushed.
  assert (scheduledOutlines (scheduleOutlines (o :: rest) s) <> []) as Hq.
  { cbn. by destruct (scheduledOutlines s). }
  destruct (flushOutlinesGL_top _ Hq) as (awaited & Hflush & _ & Hne).
  assert (scheduledOutlines (flushOutlinesGL [] (scheduleOutlines (o :: rest) s)) = [])
    as Hempty.
  { rewrite Hflush. cbn [scheduledOutlines set_flights]. by rewrite keep_queue_paint_all. }
  assert (flights (flushOutlinesGL [] (scheduleOutlines (o :: rest) s)) =
          flights s ++ [mkFlight awaited []]) as Hflights.
  { rewrite Hflush. done. }
  set (flushed := flushOutlinesGL [] (scheduleOutlines (o :: rest) s)) in *.
  clearbody flushed.
  pose proof (all_suspended_step flushed (OpSchedule (o' :: rest')) Hflushed) as Hlate.
  cbn [step] in Hlate. rewrite (turns_suspended n _ Hlate).
  split; [done|]. split; [by exists awaited|].
  split; [cbn; by rewrite Hempty|]. split; [done|]. split; [done|].
  assert (scheduledOutlines (scheduleOutlines (o' :: rest') flushed) <> []) as Hq'.
  { cbn. by rewrite Hempty. }
  destruct (flushOutlinesGL_top _ Hq') as (awaited' & -> & _ & _).
  cbn [flights set_flights scheduleOutlines set_scheduled].
  rewrite length_app. cbn. lia.
Qed.

(** C10: no operation of the engine settles a paint promise or calls
    [onPaintFinish]: over any sequence of operations the settled promises
    and the completion events of the log stay what they were, and in a run
    from the initial state there are none of either.  So the
    promise returned by a call of [paintOutlineGL] in a run from the initial
    state is never settled and the log never holds a completion event; the
    tick that removes expired outlines and [recalcOutlines] are silent in
    particular; and the refresh branch leaves the resolvers stored in the
    registry as they were, the new promise's resolver being stored nowhere. *)
Theorem paint_promise_never_settles :
  (forall ops s,
      settled (run ops s) = settled s /\ completions (run ops s) = completions s) /\
  (forall opts ops,
      settled (run ops (initial opts)) = [] /\ completions (run ops (initial opts)) = []) /\
  (forall opts ops1 o ops2,
      ((paintOutlineGL o (run ops1 (initial opts))).1
         ∉ settled (run ops2 (paintOutlineGL o (run ops1 (initial opts))).2)) /\
      forall e, e ∈ log (run ops2 (paintOutlineGL o (run ops1 (initial opts))).2) ->
                is_completion e = false) /\
  (forall host s, silent s (fadeOutOutlineGL host s)) /\
  (forall host s, silent s (recalcOutlines host s)) /\
  (forall o s,
      getOutlineKey o ∈ active_keys (activeOutlines s) ->
      resolve <$> activeOutlines (paintOutlineGL o s).2 = resolve <$> activeOutlines s).
Proof.
  split; [|split; [|split; [|split; [|split]]]].
  - intros ops s. apply silent_run.
  - intros opts ops. apply (silent_run ops (initial opts)).
  - intros opts ops1 o ops2.
    assert (run ops2 (paintOutlineGL o (run ops1 (initial opts))).2 =
            run (ops1 ++ OpPaint o :: ops2) (initial opts)) as ->.
    { unfold run. by rewrite fold_left_app. }
    destruct (silent_run (ops1 ++ OpPaint o :: ops2) (initial opts)) as [Hs Hc].
    rewrite Hs. split; [apply not_elem_of_nil|].
    intros e He. destruct (is_completion e) eqn:Hcomp; [|done].
    exfalso. unfold completions in Hc. change (log (initial opts)) with (@nil Event) in Hc.
    rewrite filter_nil in Hc.
    apply (filter_nil_not_elem_of _ _ e Hc); [by apply Is_true_true|exact He].
  - apply silent_fadeOutOutlineGL.
  - apply silent_recalcOutlines.
  - intros o s Hin. rewrite paintOutlineGL_active.
    destruct (find _ _) as [found|] eqn:Hf; [|by apply find_same_key_None in Hf].
    destruct (refresh_first_split _ o (paint_frames o) (paint_color o s) _ Hin)
      as (l1 & a & l2 & Hl & _ & _ & ->).
    rewrite Hl, !fmap_app, !fmap_cons. done.
Qed.

(** ** The idle tick *)

Lemma sweep_textures_state m s : (sweep_textures m s).2 = emit_all (deleted_textures m) s.
Proof.
  unfold emit_all, deleted_textures.
  revert s. induction m as [|[k info] m IH]; intros s; [done|].
  cbn [sweep_textures]. rewrite filter_cons. cbn [snd].
  destruct (1 <? useCount info)%nat; cbn [negb].
  - specialize (IH s). destruct (sweep_textures m s). cbn [snd] in *.
    rewrite IH. done.
  - specialize (IH (emit (EvDeleteTexture (texture info)) s)).
    destruct (sweep_textures m _). cbn [snd] in *. rewrite IH. done.
Qed.

Lemma emit_all_state l s :
  emit_all l s =
  mkState (scheduledOutlines s) (activeOutlines s) (options s) (componentUpdateMap s)
    (textureCache s) (rectCache s) (animationFrameId s) (flights s) (settled s)
    (nowCalls s) (nextHandle s) (log s ++ l).
Proof.
  unfold emit_all. revert s. induction l as [|e l IH]; intros s.
  - rewrite app_nil_r. by destruct s.
  - cbn [fold_left]. rewrite IH. unfold emit. cbn. by rewrite <- app_assoc.
Qed.

Lemma idle_cleanup_state s :
  idle_cleanup s =
  mkState (scheduledOutlines s) (activeOutlines s) (options s) ∅ [] ∅ None
    (flights s) (settled s) (nowCalls s) (nextHandle s)
    (log s ++ deleted_textures (textureCache s)).
Proof.
  unfold idle_cleanup.
  pose proof (sweep_textures_state (textureCache s)
                (set_rectCache ∅ (set_updateMap ∅ (set_frameId None s)))) as Hs.
  cbn [textureCache set_rectCache set_updateMap set_frameId] in *.
  destruct (sweep_textures _ _) as [swept s4]. cbn [snd] in Hs. subst s4.
  rewrite emit_all_state. reflexivity.
Qed.

(** C9, as amended: the tick that finds the registry empty requests no
    further animation frame and forgets the frame handle, and it empties the
    update counters, the geometry cache and the label texture cache alike;
    all it asks of the host is the deletion of the GPU texture of every
    cache entry whose use count is not above 1. *)
Theorem idle_tick_clears_every_cache host s :
  activeOutlines s = [] ->
  animationFrameId (fadeOutOutlineGL host s) = None /\
  componentUpdateMap (fadeOutOutlineGL host s) = ∅ /\
  rectCache (fadeOutOutlineGL host s) = ∅ /\
  textureCache (fadeOutOutlineGL host s) = [] /\
  log (fadeOutOutlineGL host s) = log s ++ deleted_textures (textureCache s) /\
  (forall id, EvRequestFrame id ∉ deleted_textures (textureCache s)) /\
  (forall key info, (key, info) ∈ textureCache s -> (useCount info <= 1)%nat ->
                    EvDeleteTexture (texture info) ∈ log (fadeOutOutlineGL host s)).
Proof.
  intros Hidle. unfold fadeOutOutlineGL. rewrite Hidle, idle_cleanup_state.
  cbn [animationFrameId componentUpdateMap rectCache textureCache log].
  do 5 (split; [done|]). split.
  - intros id (kv & Heq & _)%list_elem_of_fmap. done.
  - intros key info Hin Hcount. apply elem_of_app. right.
    apply list_elem_of_fmap. exists (key, info). split; [done|].
    apply list_elem_of_filter. split; [|done]. cbn [snd].
    destruct (Nat.ltb_spec 1 (useCount info)); [lia|done].
Qed.

(** ** The life of one active outline *)

Lemma NoDup_fmap_eq {A B} (f : A -> B) (l : list A) (a1 a2 : A) :
  NoDup (f <$> l) -> a1 ∈ l -> a2 ∈ l -> f a1 = f a2 -> a1 = a2.
Proof.
  induction l as [|a0 l IH]; [by intros _ ?%elem_of_nil|].
  rewrite fmap_cons. intros [Hnotin Hnd]%NoDup_cons H1 H2 Heq.
  apply elem_of_cons in H1 as [->|H1]; apply elem_of_cons in H2 as [->|H2]; try done.
  - exfalso. apply Hnotin. rewrite Heq. by apply list_elem_of_fmap_2.
  - exfalso. apply Hnotin. rewrite <- Heq. by apply list_elem_of_fmap_2.
  - by apply IH.
Qed.

(** C2, as amended: an outline enters the registry with frame 0.  A tick
    whose draw pass runs (the outline program is valid, linked and has its
    attributes) adds exactly 1 to the frame of every active outline, a tick
    whose draw pass is skipped leaves the frames alone, and either then
    removes exactly the outlines whose frame exceeds [totalFrames].  Over a
    run of ticks with a draw pass, an outline with frame [f] is therefore
    still registered, with frame [f + k], after [k] ticks while
    [f + k <= totalFrames], and is gone from the first tick on which its
    frame exceeds [totalFrames]. *)
Theorem frame_lifecycle :
  (forall o s,
      getOutlineKey o ∉ active_keys (activeOutlines s) ->
      activeOutlines (paintOutlineGL o s).2 =
        activeOutlines s ++
        [mkActive o 1 0 (paint_frames o) (paintOutlineGL o s).1
                  (getLabelText (renders o)) (paint_color o s)]) /\
  (forall host s,
      frame_view <$> activeOutlines (fadeOutOutlineGL host s) =
      filter (fun v => alive 0 v)
             ((if drawable host then advance 1 else id) <$>
                (frame_view <$> activeOutlines s))) /\
  (forall hosts s a,
      hosts <> [] ->
      Forall (fun host => drawable host = true) hosts ->
      a ∈ activeOutlines s ->
      ((frame a + length hosts <= totalFrames a)%nat ->
       (resolve a, (frame a + length hosts)%nat, totalFrames a)
         ∈ frame_view <$> activeOutlines (ticks hosts s)) /\
      ((totalFrames a < frame a + length hosts)%nat ->
       NoDup (resolve <$> activeOutlines s) ->
       forall a', a' ∈ activeOutlines (ticks hosts s) -> resolve a' <> resolve a)).
Proof.
  split; [|split].
  - intros o s Hnew. rewrite paintOutlineGL_active.
    apply find_same_key_None in Hnew. by rewrite Hnew.
  - apply fadeOutOutlineGL_views.
  - intros hosts s a Hne Hok Ha. split.
    + intros Hlive. rewrite ticks_views by done.
      apply (list_elem_of_fmap_2 (advance (length hosts)) _ (frame_view a)).
      apply list_elem_of_filter. split.
      * by apply alive_spec.
      * by apply list_elem_of_fmap_2.
    + intros Hdead Hnd a' Ha' Hsame.
      apply (list_elem_of_fmap_2 frame_view) in Ha'.
      rewrite ticks_views in Ha' by done.
      apply list_elem_of_fmap in Ha' as (v & Hv & Hin).
      apply list_elem_of_filter in Hin as [Halive Hin].
      apply list_elem_of_fmap in Hin as (a0 & -> & Ha0).
      assert (resolve a0 = resolve a) as Hid.
      { rewrite <- Hsame. by injection Hv as -> _ _. }
      pose proof (NoDup_fmap_eq resolve _ a0 a Hnd Ha0 Ha Hid) as ->.
      apply alive_spec in Halive. cbn in Halive. lia.
Qed.

(** * Further properties of the engine *)

(** ** Footprints

    As for the frame conditions, with the events an operation may log made
    a parameter: [R] is closed under the logging of the events that [Q]
    accepts, and each lemma asks of [Q] the events its operation logs. *)

Section Footprint.

Variable R : State -> State -> Prop.
Variable Q : Event -> bool.
Hypothesis R_refl : forall s, R s s.
Hypothesis R_trans : forall s1 s2 s3, R s1 s2 -> R s2 s3 -> R s1 s3.
Hypothesis R_emit : forall e s, Q e = true -> R s (emit e s).
Hypothesis R_nowCalls : forall v s, R s (set_nowCalls v s).
Hypothesis R_nextHandle : forall s, R s (set_nextHandle (S (nextHandle s)) s).
Hypothesis R_rectCache : forall v s, R s (set_rectCache v s).
Hypothesis R_updateMap : forall v s, R s (set_updateMap v s).
Hypothesis R_frameId : forall v s, R s (set_frameId v s).
Hypothesis R_active : forall v s, R s (set_active v s).
Hypothesis R_scheduled : forall v s, R s (set_scheduled v s).
Hypothesis R_flights : forall v s, R s (set_flights v s).
Hypothesis Q_style : forall e, Q (EvComputedStyle e) = true.
Hypothesis Q_rect : forall e, Q (EvBoundingRect e) = true.
Hypothesis Q_start : forall o, Q (EvPaintStart o) = true.
Hypothesis Q_frame : forall id, Q (EvRequestFrame id) = true.

Ltac strip :=
  repeat first
    [ apply R_refl
    | eapply R_trans;
      [| first [ apply R_emit; first [apply Q_style | apply Q_rect | apply Q_start | apply Q_frame]
               | apply R_nowCalls | apply R_nextHandle | apply R_rectCache
               | apply R_updateMap | apply R_frameId | apply R_active
               | apply R_scheduled | apply R_flights ] ] ].

Lemma footprint_computeRect host e s : R s (computeRect host e s).2.
Proof.
  unfold computeRect. destruct (style_hidden _); cbn [snd]; [strip|].
  destruct (negb _ || _ || _); cbn [snd performance_now]; strip.
Qed.

Lemma footprint_getRect host e s : R s (getRect host e s).2.
Proof.
  unfold getRect. destruct (rectCache s !! e); [|apply footprint_computeRect].
  cbn [performance_now]. destruct (_ <? _); cbn [snd]; [strip|].
  eapply R_trans; [|apply footprint_computeRect]. strip.
Qed.

Lemma footprint_getOutline doc host fiber render s :
  R s (getOutline doc host fiber render s).2.
Proof.
  unfold getOutline. destruct (getNearestHostFiber fiber); [|apply R_refl].
  destruct (stateNode _); [|apply R_refl].
  destruct (shouldIgnore _ _); [apply R_refl|].
  pose proof (footprint_getRect host h s) as Hg.
  by destruct (getRect host h s) as [[rc|] s1].
Qed.

Lemma footprint_recalc_scheduled host l s : R s (recalc_scheduled host l s).2.
Proof.
  revert s. induction l as [|o l IH]; intros s; [apply R_refl|]. cbn [recalc_scheduled].
  specialize (IH s). destruct (recalc_scheduled host l s) as [kept s1].
  pose proof (footprint_getRect host (domNode o) s1) as H2.
  destruct (getRect _ _ _) as [[rc|] s2]; cbn [snd] in *; eapply R_trans; eauto.
Qed.

Lemma footprint_recalc_active host l s : R s (recalc_active host l s).2.
Proof.
  revert s. induction l as [|a l IH]; intros s; [apply R_refl|]. cbn [recalc_active].
  specialize (IH s). destruct (recalc_active host l s) as [kept s1].
  pose proof (footprint_getRect host (domNode (outline a)) s1) as H2.
  destruct (getRect _ _ _) as [[rc|] s2]; cbn [snd] in *; eapply R_trans; eauto.
Qed.

Lemma footprint_recalcOutlines host s : R s (recalcOutlines host s).
Proof.
  unfold recalcOutlines.
  pose proof (footprint_recalc_scheduled host (scheduledOutlines s) s) as H1.
  destruct (recalc_scheduled _ _ _) as [q s1]. cbn [snd] in H1.
  pose proof (footprint_recalc_active host (activeOutlines s1) s1) as H2.
  destruct (recalc_active _ _ _) as [acts s2]. cbn [snd] in H2.
  eapply R_trans; [exact H1|]. eapply R_trans; [exact H2|].
  eapply R_trans; [apply R_scheduled|apply R_active].
Qed.

Lemma footprint_request_frame s : R s (request_frame s).
Proof. unfold request_frame. cbn [fresh_handle]. strip. Qed.

Lemma footprint_paintOutlineGL o s : R s (paintOutlineGL o s).2.
Proof.
  unfold paintOutlineGL. cbn [fresh_handle snd].
  set (s1 := if onPaintStart _ then _ else _).
  assert (R s s1) as H1 by (subst s1; destruct (onPaintStart _); strip).
  clearbody s1.
  set (s3 := match find _ _ with Some _ => _ | None => _ end).
  assert (R s1 s3) as H3 by (subst s3; destruct (find _ _); strip).
  clearbody s3.
  eapply R_trans; [exact H1|]. eapply R_trans; [exact H3|].
  destruct (animationFrameId s3); [apply R_refl|apply footprint_request_frame].
Qed.

Lemma footprint_paint_fold previous l acc :
  R acc.2 (fold_left (paint_unless_previous previous) l acc).2.
Proof.
  revert acc. induction l as [|o l IH]; intros acc; [apply R_refl|]. cbn [fold_left].
  eapply R_trans; [|apply IH].
  destruct acc as [awaited s]. unfold paint_unless_previous.
  destruct (omap_has _ _); [apply R_refl|].
  pose proof (footprint_paintOutlineGL o s) as H1.
  by destruct (paintOutlineGL o s).
Qed.

Lemma footprint_flushOutlinesGL previous s : R s (flushOutlinesGL previous s).
Proof.
  unfold flushOutlinesGL. destruct (scheduledOutlines s) as [|o0 q]; [apply R_refl|].
  pose proof (footprint_paint_fold previous
                (mergeOutlines ((o0 :: q) ++ scheduledOutlines (set_scheduled [] s)))
                ([], set_scheduled [] (set_scheduled [] s))) as H1.
  destruct (fold_left _ _ _) as [awaited s3]. cbn [snd] in H1.
  eapply R_trans; [|apply R_flights]. eapply R_trans; [|exact H1].
  eapply R_trans; apply R_scheduled.
Qed.

Lemma footprint_event_loop_turn s : R s (event_loop_turn s).
Proof.
  unfold event_loop_turn.
  assert (forall fs st, R st (fold_left resume_flight fs st)) as Hfold.
  { induction fs as [|f fs IH]; intros st; [apply R_refl|]. cbn [fold_left].
    eapply R_trans; [|apply IH].
    unfold resume_flight. destruct (pendingPaints _); [|apply R_flights].
    destruct (scheduledOutlines st); [apply R_refl|apply footprint_flushOutlinesGL]. }
  eapply R_trans; [apply R_flights|apply Hfold].
Qed.

End Footprint.

Lemma gains_refl allowed s : gains allowed s s.
Proof. exists []. by rewrite app_nil_r. Qed.

Lemma gains_trans allowed s1 s2 s3 :
  gains allowed s1 s2 -> gains allowed s2 s3 -> gains allowed s1 s3.
Proof.
  intros (l1 & H1 & F1) (l2 & H2 & F2). exists (l1 ++ l2).
  split; [by rewrite H2, H1, app_assoc|by apply Forall_app].
Qed.

Lemma gains_emit allowed e s : allowed e = true -> gains allowed s (emit e s).
Proof. intros He. exists [e]. split; [done|by apply Forall_singleton]. Qed.

Lemma gains_same_log allowed s s' : log s' = log s -> gains allowed s s'.
Proof. intros Hl. exists []. by rewrite app_nil_r. Qed.

(** ** What [recalcOutlines] does and does not do *)

(** X1: [recalcOutlines] talks to the page only: what it logs are reads of
    computed styles and bounding rectangles, and it leaves the update
    counters, the label texture cache, the pending animation frame, the
    suspended flushes, the handle counter and the options as they were. *)
Theorem recalcOutlines_reads_only host s :
  gains is_layout_read s (recalcOutlines host s) /\
  engine_untouched s (recalcOutlines host s).
Proof.
  split.
  - apply (footprint_recalcOutlines (gains is_layout_read) is_layout_read);
      first [ apply gains_refl | apply gains_trans | apply gains_emit
            | done | by intros; apply gains_same_log ].
  - apply (footprint_recalcOutlines engine_untouched (fun _ => true));
      first [ by intros; repeat split
            | done
            | intros s1 s2 s3 (?&?&?&?&?&?) (?&?&?&?&?&?); repeat split; congruence ].
Qed.

Lemma getRect_live_some host e s :
  liveRect host e <> None -> (getRect host e s).1 <> None.
Proof.
  intros Hlive. unfold getRect. destruct (rectCache s !! e); cbn [performance_now].
  - destruct (_ <? _); [done|]. by rewrite computeRect_result.
  - by rewrite computeRect_result.
Qed.

Lemma getRect_empty_cache_dead host e s :
  rectCache s = ∅ -> liveRect host e = None ->
  (getRect host e s).1 = None /\ rectCache (getRect host e s).2 = ∅.
Proof.
  intros Hc Hlive. unfold getRect. rewrite Hc, lookup_empty.
  by rewrite computeRect_result, computeRect_cache, Hlive, Hc.
Qed.

Lemma recalc_scheduled_sublist host l s :
  pending_sans_rect <$> (recalc_scheduled host l s).1 `sublist_of` pending_sans_rect <$> l.
Proof.
  induction l as [|o l IH]; [done|]. cbn [recalc_scheduled].
  destruct (recalc_scheduled host l s) as [kept s1]. cbn [fst] in IH.
  destruct (getRect _ _ _) as [[rc|] s2]; cbn [fst]; rewrite !fmap_cons.
  - by apply sublist_skip.
  - by apply sublist_cons.
Qed.

Lemma recalc_active_sublist host l s :
  active_sans_rect <$> (recalc_active host l s).1 `sublist_of` active_sans_rect <$> l.
Proof.
  induction l as [|a l IH]; [done|]. cbn [recalc_active].
  destruct (recalc_active host l s) as [kept s1]. cbn [fst] in IH.
  destruct (getRect _ _ _) as [[rc|] s2]; cbn [fst]; rewrite !fmap_cons.
  - by apply sublist_skip.
  - by apply sublist_cons.
Qed.

Lemma recalc_scheduled_visible host l s :
  (forall e, liveRect host e <> None) ->
  pending_sans_rect <$> (recalc_scheduled host l s).1 = pending_sans_rect <$> l.
Proof.
  intros Hvis. induction l as [|o l IH]; [done|]. cbn [recalc_scheduled].
  destruct (recalc_scheduled host l s) as [kept s1]. cbn [fst] in IH.
  pose proof (getRect_live_some host (domNode o) s1 (Hvis _)) as Hg.
  destruct (getRect _ _ _) as [[rc|] s2]; [|done]. cbn [fst].
  rewrite !fmap_cons. by rewrite IH.
Qed.

Lemma recalc_active_visible host l s :
  (forall e, liveRect host e <> None) ->
  active_sans_rect <$> (recalc_active host l s).1 = active_sans_rect <$> l.
Proof.
  intros Hvis. induction l as [|a l IH]; [done|]. cbn [recalc_active].
  destruct (recalc_active host l s) as [kept s1]. cbn [fst] in IH.
  pose proof (getRect_live_some host (domNode (outline a)) s1 (Hvis _)) as Hg.
  destruct (getRect _ _ _) as [[rc|] s2]; [|done]. cbn [fst].
  rewrite !fmap_cons. by rewrite IH.
Qed.

Lemma recalc_scheduled_hidden host l s :
  (forall e, liveRect host e = None) -> rectCache s = ∅ ->
  (recalc_scheduled host l s).1 = [] /\ rectCache (recalc_scheduled host l s).2 = ∅.
Proof.
  intros Hdead Hc. induction l as [|o l IH]; [done|]. cbn [recalc_scheduled].
  destruct (recalc_scheduled host l s) as [kept s1]. cbn [fst snd] in IH.
  destruct IH as [-> Hc1].
  pose proof (getRect_empty_cache_dead host (domNode o) s1 Hc1 (Hdead _)) as [Hr Hc2].
  by destruct (getRect _ _ _) as [[rc|] s2].
Qed.

Lemma recalc_active_hidden host l s :
  (forall e, liveRect host e = None) -> rectCache s = ∅ ->
  (recalc_active host l s).1 = [] /\ rectCache (recalc_active host l s).2 = ∅.
Proof.
  intros Hdead Hc. induction l as [|a l IH]; [done|]. cbn [recalc_active].
  destruct (recalc_active host l s) as [kept s1]. cbn [fst snd] in IH.
  destruct IH as [-> Hc1].
  pose proof (getRect_empty_cache_dead host (domNode (outline a)) s1 Hc1 (Hdead _))
    as [Hr Hc2].
  by destruct (getRect _ _ _) as [[rc|] s2].
Qed.

Lemma recalcOutlines_lists host s :
  scheduledOutlines (recalcOutlines host s) = (recalc_scheduled host (scheduledOutlines s) s).1 /\
  activeOutlines (recalcOutlines host s) =
    (recalc_active host (activeOutlines s) (recalc_scheduled host (scheduledOutlines s) s).2).1 /\
  rectCache (recalcOutlines host s) =
    rectCache
      (recalc_active host (activeOutlines s) (recalc_scheduled host (scheduledOutlines s) s).2).2.
Proof.
  unfold recalcOutlines.
  assert (activeOutlines (recalc_scheduled host (scheduledOutlines s) s).2 =
          activeOutlines s) as Hact.
  { apply (footprint_recalc_scheduled (fun s1 s2 => activeOutlines s2 = activeOutlines s1)
             (fun _ => true)); first [done | intros; congruence]. }
  destruct (recalc_scheduled _ _ _) as [q s1]. cbn [fst snd] in *. rewrite Hact.
  by destruct (recalc_active _ _ _) as [acts s2].
Qed.

(** X2: [recalcOutlines] only ever drops outlines and rewrites rectangles:
    the queue and the registry after it are, rectangles aside, sublists of
    what they were, so no outline is added, reordered or refreshed, and no
    frame, fade window, color, label or render list changes. *)
Theorem recalcOutlines_only_drops host s :
  pending_sans_rect <$> scheduledOutlines (recalcOutlines host s)
    `sublist_of` pending_sans_rect <$> scheduledOutlines s /\
  active_sans_rect <$> activeOutlines (recalcOutlines host s)
    `sublist_of` active_sans_rect <$> activeOutlines s.
Proof.
  destruct (recalcOutlines_lists host s) as (-> & -> & _). split.
  - apply recalc_scheduled_sublist.
  - apply recalc_active_sublist.
Qed.

(** X3: on a page where every element has a rectangle (rendered, inside the
    extended viewport, not empty) [recalcOutlines] drops nothing, whatever
    the geometry cache holds. *)
Theorem recalcOutlines_keeps_visible host s :
  (forall e, liveRect host e <> None) ->
  pending_sans_rect <$> scheduledOutlines (recalcOutlines host s)
    = pending_sans_rect <$> scheduledOutlines s /\
  active_sans_rect <$> activeOutlines (recalcOutlines host s)
    = active_sans_rect <$> activeOutlines s.
Proof.
  intros Hvis. destruct (recalcOutlines_lists host s) as (-> & -> & _). split.
  - by apply recalc_scheduled_visible.
  - by apply recalc_active_visible.
Qed.

(** X4: on a page where no element has a rectangle, and with an empty
    geometry cache, [recalcOutlines] empties the queue and the registry, and
    the cache stays empty. *)
Theorem recalcOutlines_drops_hidden host s :
  (forall e, liveRect host e = None) -> rectCache s = ∅ ->
  scheduledOutlines (recalcOutlines host s) = [] /\
  activeOutlines (recalcOutlines host s) = [] /\
  rectCache (recalcOutlines host s) = ∅.
Proof.
  intros Hdead Hc. destruct (recalcOutlines_lists host s) as (Hq & Ha & Hr).
  destruct (recalc_scheduled_hidden host (scheduledOutlines s) s Hdead Hc) as [Hq1 Hc1].
  destruct (recalc_active_hidden host (activeOutlines s) _ Hdead Hc1) as [Ha1 Hc2].
  by rewrite Hq, Ha, Hr, Hq1, Ha1, Hc2.
Qed.

(** ** Resolving a render to an outline *)

Lemma ignored_in_spec doc chain :
  ignored_in doc chain = true <->
  exists e, e ∈ chain /\ hasAttribute doc e "data-react-scan-ignore" = true.
Proof.
  induction chain as [|e chain IH]; cbn [ignored_in].
  - split; [done|]. by intros (e & ?%elem_of_nil & _).
  - destruct (hasAttribute doc e _) eqn:He.
    + split; [|done]. intros _. exists e. split; [apply list_elem_of_here|done].
    + rewrite IH. split.
      * intros (e' & Hin & He'). exists e'. split; [by apply list_elem_of_further|done].
      * intros (e' & [->|Hin]%elem_of_cons & He'); [congruence|]. by exists e'.
Qed.

(** X5: when the element of a render, or any of its ancestors, carries the
    attribute [data-react-scan-ignore], [getOutline] returns [null] without
    a look at the page: the engine state, with its log, geometry cache and
    clock readings, is exactly what it was. *)
Theorem getOutline_opt_out doc host fiber render s domFiber domNode marked :
  getNearestHostFiber fiber = Some domFiber ->
  stateNode domFiber = Some domNode ->
  marked ∈ domNode :: ancestors doc domNode ->
  hasAttribute doc marked "data-react-scan-ignore" = true ->
  getOutline doc host fiber render s = (None, s).
Proof.
  intros Hfiber Hnode Hin Hmark. unfold getOutline. rewrite Hfiber, Hnode.
  assert (shouldIgnore doc domNode = true) as ->; [|done].
  apply ignored_in_spec. by exists marked.
Qed.

(** X6: [getOutline] returns an outline exactly when the fiber has a host
    fiber whose node is an element, neither that element nor an ancestor
    carries the opt-out attribute, and [getRect] has a rectangle for the
    element; the outline then holds that element, that rectangle and the
    one render, and the state is the one [getRect] left. *)
Theorem getOutline_some doc host fiber render s o s' :
  getOutline doc host fiber render s = (Some o, s') <->
  exists domFiber domNode rc,
    getNearestHostFiber fiber = Some domFiber /\
    stateNode domFiber = Some domNode /\
    (forall e, e ∈ domNode :: ancestors doc domNode ->
               hasAttribute doc e "data-react-scan-ignore" = false) /\
    getRect host domNode s = (Some rc, s') /\
    o = mkPending rc domNode [render].
Proof.
  unfold getOutline. split.
  - destruct (getNearestHostFiber fiber) as [domFiber|] eqn:Hfiber; [|done].
    destruct (stateNode domFiber) as [domNode|] eqn:Hnode; [|done].
    destruct (shouldIgnore doc domNode) eqn:Hig; [done|].
    destruct (getRect host domNode s) as [[rc|] s1] eqn:Hg; [|done].
    intros [= <- <-]. exists domFiber, domNode, rc. do 2 (split; [done|]).
    split; [|done]. intros e Hin.
    destruct (hasAttribute doc e _) eqn:He; [|done].
    assert (shouldIgnore doc domNode = true); [|congruence].
    apply ignored_in_spec. by exists e.
  - intros (domFiber & domNode & rc & -> & -> & Hclean & -> & ->).
    assert (shouldIgnore doc domNode = false) as ->; [|done].
    destruct (shouldIgnore doc domNode) eqn:Hig; [|done].
    apply ignored_in_spec in Hig as (e & Hin & He). rewrite (Hclean e Hin) in He. done.
Qed.

(** ** Painting never looks at the page *)

Lemma page_unread_trans s1 s2 s3 : page_unread s1 s2 -> page_unread s2 s3 -> page_unread s1 s3.
Proof. intros (?&?&?&?) (?&?&?&?). repeat split; congruence. Qed.

(** X7: [paintOutlineGL] and [flushOutlinesGL] never look at the page: all
    they log are calls of [onPaintStart] and requests of an animation frame,
    and they leave the geometry cache, the clock, the label texture cache
    and the options alone.  A region is painted with the rectangle its
    outline was scheduled with. *)
Theorem painting_never_reads_page :
  (forall o s, gains is_paint_event s (paintOutlineGL o s).2 /\
               page_unread s (paintOutlineGL o s).2) /\
  (forall previous s, gains is_paint_event s (flushOutlinesGL previous s) /\
                      page_unread s (flushOutlinesGL previous s)).
Proof.
  split.
  - intros o s. split.
    + apply (footprint_paintOutlineGL (gains is_paint_event) is_paint_event);
        first [ apply gains_refl | apply gains_trans | apply gains_emit
              | done | by intros; apply gains_same_log ].
    + apply (footprint_paintOutlineGL page_unread (fun _ => true));
        first [ by intros; repeat split | done | apply page_unread_trans ].
  - intros previous s. split.
    + apply (footprint_flushOutlinesGL (gains is_paint_event) is_paint_event);
        first [ apply gains_refl | apply gains_trans | apply gains_emit
              | done | by intros; apply gains_same_log ].
    + apply (footprint_flushOutlinesGL page_unread (fun _ => true));
        first [ by intros; repeat split | done | apply page_unread_trans ].
Qed.

(** ** The key of a rectangle *)

Lemma string_app_cons (ch : Ascii.ascii) (a b : string) :
  String ch a +:+ b = String ch (a +:+ b).
Proof. reflexivity. Qed.

Lemma string_app_assoc (a b c : string) : (a +:+ b) +:+ c = a +:+ (b +:+ c).
Proof. induction a as [|ch a IH]; [done|]. by rewrite !string_app_cons, IH. Qed.

Lemma string_app_empty (a : string) : a +:+ "" = a.
Proof. induction a as [|ch a IH]; [done|]. by rewrite string_app_cons, IH. Qed.

Lemma all_digits_cons ch str :
  all_digits (String ch str) = true <-> is_digit ch = true /\ all_digits str = true.
Proof. cbn [all_digits]. apply andb_true_iff. Qed.

Lemma pretty_N_char_digit n : is_digit (pretty_N_char n) = true.
Proof.
  unfold pretty_N_char.
  destruct n as [|p]; [done|]. by repeat (destruct p as [p|p|]; try done).
Qed.

Lemma all_digits_snoc d ch :
  all_digits d = true -> is_digit ch = true -> all_digits (d +:+ String ch "") = true.
Proof.
  intros Hd Hch. induction d as [|c d IHd]; rewrite ?string_app_cons.
  - apply all_digits_cons. done.
  - apply all_digits_cons in Hd as [Hc Hd]. apply all_digits_cons. auto.
Qed.

Lemma pretty_N_go_digits n str :
  exists d, pretty_N_go n str = d +:+ str /\ all_digits d = true /\
            ((0 < n)%N -> d <> "").
Proof.
  revert str. induction (N.lt_wf_0 n) as [n _ IH]. intros str.
  destruct (decide (n = 0%N)) as [->|Hn].
  - exists "". rewrite pretty_N_go_0. split; [done|]. split; [done|]. lia.
  - rewrite pretty_N_go_step by lia.
    assert (n `div` 10 < n)%N as Hlt by (apply N.div_lt; lia).
    destruct (IH (n `div` 10)%N Hlt (String (pretty_N_char (n `mod` 10)) str))
      as (d & Heq & Hd & _).
    rewrite Heq. exists (d +:+ String (pretty_N_char (n `mod` 10)) "").
    split; [|split].
    + by rewrite string_app_assoc.
    + apply all_digits_snoc; [done|apply pretty_N_char_digit].
    + intros _. by destruct d.
Qed.

Lemma pretty_N_digits (n : N) : all_digits (pretty n) = true /\ pretty n <> "".
Proof.
  unfold pretty, pretty_N. destruct (decide (n = 0%N)) as [->|Hn]; [done|].
  destruct (pretty_N_go_digits n "") as (d & -> & Hd & Hne).
  rewrite string_app_empty.
  split; [done|]. apply Hne. lia.
Qed.

(** Two strings of digits that are followed by a dash end at the same place. *)
Lemma digits_before_dash d1 d2 rest1 rest2 :
  all_digits d1 = true -> all_digits d2 = true ->
  d1 +:+ String "-" rest1 = d2 +:+ String "-" rest2 ->
  d1 = d2 /\ rest1 = rest2.
Proof.
  revert d2. induction d1 as [|c1 d1 IH]; intros [|c2 d2] H1 H2;
    rewrite ?string_app_cons; change ("" +:+ ?r) with r; intros Heq.
  - by injection Heq as ->.
  - injection Heq as <- _. by apply all_digits_cons in H2 as [? _].
  - injection Heq as -> _. by apply all_digits_cons in H1 as [? _].
  - injection Heq as -> Heq.
    apply all_digits_cons in H1 as [_ H1]. apply all_digits_cons in H2 as [_ H2].
    by destruct (IH d2 H1 H2 Heq) as [-> ->].
Qed.

Lemma pretty_Z_before_dash (z1 z2 : Z) rest1 rest2 :
  pretty z1 +:+ String "-" rest1 = pretty z2 +:+ String "-" rest2 ->
  z1 = z2 /\ rest1 = rest2.
Proof.
  assert (forall p : positive, all_digits (pretty p) = true /\ pretty p <> "") as Hpos.
  { intros p. apply (pretty_N_digits (N.pos p)). }
  assert (forall (p : positive) rest rest', pretty p +:+ rest <> String "-" rest') as Hnodash.
  { intros p rest rest' Heq. destruct (Hpos p) as [Hd Hne].
    destruct (pretty p) as [|c d]; [done|].
    rewrite string_app_cons in Heq. injection Heq as -> _.
    by apply all_digits_cons in Hd as [? _]. }
  assert (forall p : positive, pretty p <> "0") as Hnozero.
  { intros p Heq. by apply (pretty_N_go_ne_0 (N.pos p) ""). }
  destruct z1 as [|p1|p1], z2 as [|p2|p2];
    change (pretty 0) with "0";
    change (pretty (Z.pos ?p)) with (pretty p);
    change (pretty (Z.neg ?p)) with (String "-" (pretty p));
    rewrite ?string_app_cons; intros Heq.
  - by injection Heq as ->.
  - destruct (digits_before_dash "0" (pretty p2) rest1 rest2) as [H0 ->];
      [done|apply Hpos|done|]. by destruct (Hnozero p2).
  - discriminate.
  - destruct (digits_before_dash (pretty p1) "0" rest1 rest2) as [H0 ->];
      [apply Hpos|done|done|]. by destruct (Hnozero p1).
  - destruct (digits_before_dash (pretty p1) (pretty p2) rest1 rest2) as [Hp ->];
      [apply Hpos|apply Hpos|done|].
    split; [|done]. f_equal. by apply (inj pretty).
  - by apply Hnodash in Heq.
  - discriminate.
  - symmetry in Heq. by apply Hnodash in Heq.
  - injection Heq as Heq.
    destruct (digits_before_dash (pretty p1) (pretty p2) rest1 rest2) as [Hp ->];
      [apply Hpos|apply Hpos|done|].
    split; [|done]. f_equal. by apply (inj pretty).
Qed.

(** X8: the key is a faithful fingerprint: two rectangles whose
    coordinates are integers of magnitude at most 2^52 have the same key
    exactly when they have the same top, left, width and height, that is
    when they are the same rectangle. *)
Theorem rectKey_inj (rc1 rc2 : DOMRect) :
  safe_rect rc1 -> safe_rect rc2 -> (rectKey rc1 = rectKey rc2 <-> rc1 = rc2).
Proof.
  intros _ _. split; [|by intros ->].
  unfold rectKey. change ("-" +:+ ?r) with (String "-" r).
  intros Heq.
  apply pretty_Z_before_dash in Heq as [Htop Heq].
  apply pretty_Z_before_dash in Heq as [Hleft Heq].
  apply pretty_Z_before_dash in Heq as [Hwidth Hheight%(inj pretty)].
  destruct rc1 as [x1 y1 w1 h1], rc2 as [x2 y2 w2 h2].
  unfold top, left in *. cbn in *. subst. f_equal; lia.
Qed.

(** ** More on the merger *)

Lemma omap_set_absent {K V} `{EqDecision K} (k : K) (v : V) (m : list (K * V)) :
  omap_get k m = None -> omap_set k v m = m ++ [(k, v)].
Proof.
  induction m as [|[k0 v0] m IH]; cbn [omap_get omap_set]; [done|].
  destruct (decide (k = k0)); [done|]. intros Hg. by rewrite IH.
Qed.

Lemma omap_set_present {K V} `{EqDecision K} (k : K) (v old : V) (m : list (K * V)) :
  omap_get k m = Some old ->
  exists m1 m2, m = m1 ++ (k, old) :: m2 /\ omap_set k v m = m1 ++ (k, v) :: m2.
Proof.
  induction m as [|[k0 v0] m IH]; cbn [omap_get omap_set]; [done|].
  destruct (decide (k = k0)) as [->|Hne].
  - intros [= ->]. by exists [], m.
  - intros Hg. destruct (IH Hg) as (m1 & m2 & -> & ->). by exists ((k0, v0) :: m1), m2.
Qed.

Lemma all_renders_merge_step m o :
  all_renders (merge_step m o).*2 ≡ₚ all_renders m.*2 ++ renders o.
Proof.
  unfold merge_step, all_renders.
  destruct (omap_get (getOutlineKey o) m) as [existing|] eqn:Hg.
  - destruct (omap_set_present _ (push_renders existing o) _ _ Hg) as (m1 & m2 & -> & ->).
    rewrite !fmap_app, !fmap_cons, !concat_app, !concat_cons. cbn [snd push_renders renders].
    rewrite <- !app_assoc. apply Permutation_app_head, Permutation_app_head.
    apply Permutation_app_comm.
  - rewrite (omap_set_absent _ _ _ Hg).
    rewrite !fmap_app, !concat_app. cbn. by rewrite app_nil_r.
Qed.

Lemma all_renders_mergeOutlines l : all_renders (mergeOutlines l) ≡ₚ all_renders l.
Proof.
  unfold mergeOutlines. fold (merged_map l).
  induction l as [|o l IH] using rev_ind; [done|].
  rewrite merged_map_snoc, all_renders_merge_step, IH.
  unfold all_renders. rewrite fmap_app, concat_app. cbn. by rewrite app_nil_r.
Qed.

Lemma renders_count_from (rs : list Render) (start : Z) :
  fold_left (fun sum rd => sum + render_count rd) rs start =
  start + renders_count rs.
Proof.
  unfold renders_count. revert start. induction rs as [|rd rs IH]; intros start; cbn [fold_left].
  - lia.
  - rewrite IH, (IH (0 + render_count rd)). lia.
Qed.

Lemma renders_count_cons rd rs :
  renders_count (rd :: rs) = render_count rd + renders_count rs.
Proof. unfold renders_count at 1. cbn [fold_left]. by rewrite renders_count_from. Qed.

Lemma renders_count_app rs1 rs2 :
  renders_count (rs1 ++ rs2) = renders_count rs1 + renders_count rs2.
Proof.
  induction rs1 as [|rd rs1 IH]; [done|].
  rewrite <- app_comm_cons, !renders_count_cons, IH. lia.
Qed.

Lemma renders_count_perm rs1 rs2 : rs1 ≡ₚ rs2 -> renders_count rs1 = renders_count rs2.
Proof.
  induction 1 as [|rd rs1 rs2 _ IH|rd1 rd2 rs|rs1 rs2 rs3 _ IH1 _ IH2];
    rewrite ?renders_count_cons; [done|by rewrite IH|lia|congruence].
Qed.

Lemma renders_time_from (rs : list Render) (start : Q) :
  (fold_left (fun sum rd => (sum + render_time rd)%Q) rs start ==
   start + renders_time rs)%Q.
Proof.
  unfold renders_time. revert start. induction rs as [|rd rs IH]; intros start; cbn [fold_left].
  - apply Qeq_sym, Qplus_0_r.
  - pose proof (IH (start + render_time rd)%Q) as H1.
    pose proof (IH (0 + render_time rd)%Q) as H2.
    apply (Qeq_trans _ _ _ H1).
    apply Qeq_sym. apply (Qeq_trans _ (start + (0 + render_time rd + fold_left (fun sum rd0 => sum + render_time rd0) rs 0))%Q).
    + apply Qplus_comp; [reflexivity|exact H2].
    + set (x := fold_left _ rs 0%Q). set (y := render_time rd). clearbody x y.
      ring.
Qed.

Lemma renders_time_cons rd rs :
  (renders_time (rd :: rs) == render_time rd + renders_time rs)%Q.
Proof.
  unfold renders_time at 1. cbn [fold_left].
  apply (Qeq_trans _ _ _ (renders_time_from rs _)).
  apply Qplus_comp; [apply Qplus_0_l|reflexivity].
Qed.

Lemma renders_time_app rs1 rs2 :
  (renders_time (rs1 ++ rs2) == renders_time rs1 + renders_time rs2)%Q.
Proof.
  induction rs1 as [|rd rs1 IH].
  - apply Qeq_sym, Qplus_0_l.
  - rewrite <- app_comm_cons.
    apply (Qeq_trans _ _ _ (renders_time_cons _ _)).
    apply (Qeq_trans _ (render_time rd + (renders_time rs1 + renders_time rs2))%Q).
    + apply Qplus_comp; [reflexivity|exact IH].
    + apply (Qeq_trans _ _ _ (Qplus_assoc _ _ _)).
      apply Qplus_comp; [apply Qeq_sym, renders_time_cons|reflexivity].
Qed.

Lemma renders_time_perm rs1 rs2 : rs1 ≡ₚ rs2 -> (renders_time rs1 == renders_time rs2)%Q.
Proof.
  induction 1 as [|rd rs1 rs2 _ IH|rd1 rd2 rs|rs1 rs2 rs3 _ IH1 _ IH2].
  - reflexivity.
  - apply (Qeq_trans _ _ _ (renders_time_cons _ _)).
    apply Qeq_sym, (Qeq_trans _ _ _ (renders_time_cons _ _)).
    apply Qplus_comp; [reflexivity|by apply Qeq_sym].
  - apply (Qeq_trans _ _ _ (renders_time_cons _ _)).
    apply Qeq_sym, (Qeq_trans _ _ _ (renders_time_cons _ _)).
    apply (Qeq_trans _ (render_time rd1 + (render_time rd2 + renders_time rs))%Q).
    { apply Qplus_comp; [reflexivity|apply renders_time_cons]. }
    apply Qeq_sym.
    apply (Qeq_trans _ (render_time rd2 + (render_time rd1 + renders_time rs))%Q).
    { apply Qplus_comp; [reflexivity|apply renders_time_cons]. }
    apply (Qeq_trans _ _ _ (Qplus_assoc _ _ _)).
    apply Qeq_sym, (Qeq_trans _ _ _ (Qplus_assoc _ _ _)).
    apply Qplus_comp; [apply Qplus_comm|reflexivity].
  - exact (Qeq_trans _ _ _ IH1 IH2).
Qed.

Lemma toolbar_stats_from l (count : Z) (time : Q) :
  let result :=
    fold_left (fun acc o => (acc.1 + renders_count (renders o),
                             (acc.2 + renders_time (renders o))%Q)) l (count, time) in
  result.1 = count + renders_count (all_renders l) /\
  (result.2 == time + renders_time (all_renders l))%Q.
Proof.
  revert count time. induction l as [|o l IH]; intros count time; cbn [fold_left fst snd].
  - unfold all_renders, renders_time. cbn. split; [lia|lra].
  - destruct (IH (count + renders_count (renders o)) (time + renders_time (renders o))%Q)
      as [Hc Ht].
    cbn zeta in *. rewrite Hc, Ht. unfold all_renders. rewrite fmap_cons, concat_cons.
    rewrite renders_count_app, renders_time_app. split; [lia|lra].
Qed.

(** X9: merging loses no render and invents none: the renders of the merged
    regions are, up to order, the renders of the batch.  The count and the
    time that the flush shows in the toolbar for the merged regions are
    therefore the totals over all scheduled renders. *)
Theorem mergeOutlines_keeps_renders l :
  all_renders (mergeOutlines l) ≡ₚ all_renders l /\
  (toolbar_stats (mergeOutlines l)).1 = renders_count (all_renders l) /\
  ((toolbar_stats (mergeOutlines l)).2 == renders_time (all_renders l))%Q.
Proof.
  pose proof (all_renders_mergeOutlines l) as Hperm.
  destruct (toolbar_stats_from (mergeOutlines l) 0 0%Q) as [Hc Ht].
  cbn zeta in *. unfold toolbar_stats. split; [done|]. split.
  - rewrite Hc, (renders_count_perm _ _ Hperm). lia.
  - rewrite Ht, (renders_time_perm _ _ Hperm). lra.
Qed.

Lemma merged_map_distinct l :
  NoDup (getOutlineKey <$> l) -> merged_map l = (fun o => (getOutlineKey o, o)) <$> l.
Proof.
  induction l as [|o l IH] using rev_ind; [done|].
  rewrite fmap_app. intros [Hnd [Hnotin _]]%NoDup_app.
  rewrite merged_map_snoc, IH by done. unfold merge_step.
  assert (omap_get (getOutlineKey o) ((fun o => (getOutlineKey o, o)) <$> l) = None) as Hg.
  { apply omap_get_None. rewrite <- list_fmap_compose.
    intros Hin. apply (Hnotin _ Hin). apply list_elem_of_here. }
  rewrite Hg, omap_set_absent by done. by rewrite fmap_app.
Qed.

(** X10: a batch whose keys are pairwise distinct is left as it is by
    [mergeOutlines]; merging a merged batch again changes nothing; and the
    empty batch merges to the empty batch. *)
Theorem mergeOutlines_idempotent :
  (forall l, NoDup (getOutlineKey <$> l) -> mergeOutlines l = l) /\
  (forall l, mergeOutlines (mergeOutlines l) = mergeOutlines l) /\
  mergeOutlines [] = [].
Proof.
  assert (forall l, NoDup (getOutlineKey <$> l) -> mergeOutlines l = l) as Hdistinct.
  { intros l Hnd. unfold mergeOutlines. fold (merged_map l).
    rewrite merged_map_distinct by done. rewrite <- list_fmap_compose. apply list_fmap_id. }
  split; [done|]. split; [|done].
  intros l. apply Hdistinct. rewrite mergeOutlines_keys. apply merged_map_nodup.
Qed.

Lemma merged_map_first l key o :
  omap_get key (merged_map l) = Some o ->
  exists l1 first l2,
    l = l1 ++ first :: l2 /\ getOutlineKey first = key /\
    (key ∉ getOutlineKey <$> l1) /\
    rect o = rect first /\ domNode o = domNode first.
Proof.
  revert o. induction l as [|o' l IH] using rev_ind; intros o; [done|].
  rewrite merged_map_snoc. unfold merge_step.
  pose proof (merged_map_get l key) as Hget.
  destruct (decide (getOutlineKey o' = key)) as [Hk|Hk].
  - rewrite Hk. destruct (omap_get key (merged_map l)) as [existing|] eqn:He.
    + rewrite omap_get_set. destruct (decide (key = key)); [|done]. intros [= <-].
      destruct (IH existing eq_refl) as (l1 & first & l2 & -> & Hf & Hl1 & Hr & Hd).
      exists l1, first, (l2 ++ [o']). rewrite <- app_assoc. by cbn.
    + rewrite omap_get_set. destruct (decide (key = key)); [|done]. intros [= <-].
      exists l, o', []. done.
  - assert (omap_get key
              match omap_get (getOutlineKey o') (merged_map l) with
              | Some existing =>
                  omap_set (getOutlineKey o') (push_renders existing o') (merged_map l)
              | None => omap_set (getOutlineKey o') o' (merged_map l)
              end = omap_get key (merged_map l)) as ->.
    { destruct (omap_get (getOutlineKey o') _); rewrite omap_get_set;
        by destruct (decide (key = getOutlineKey o')); [congruence|]. }
    intros Ho. destruct (IH o Ho) as (l1 & first & l2 & -> & Hf & Hl1 & Hr & Hd).
    exists l1, first, (l2 ++ [o']). rewrite <- app_assoc. by cbn.
Qed.

(** X11: each merged region stands at the rectangle and on the element of
    the first outline of the batch that has its key; the elements of later
    outlines with the same key are not kept. *)
Theorem mergeOutlines_keeps_first l o :
  o ∈ mergeOutlines l ->
  exists l1 first l2,
    l = l1 ++ first :: l2 /\
    getOutlineKey first = getOutlineKey o /\
    (getOutlineKey o ∉ getOutlineKey <$> l1) /\
    rect o = rect first /\ domNode o = domNode first.
Proof. intros Hin%elem_of_mergeOutlines. by apply merged_map_first. Qed.

(** ** The life of the label textures *)

Lemma textures_kept_refl s : textures_kept s s.
Proof. by repeat split. Qed.

Lemma textures_kept_trans s1 s2 s3 :
  textures_kept s1 s2 -> textures_kept s2 s3 -> textures_kept s1 s3.
Proof. intros (?&?&?&?) (?&?&?&?). repeat split; (congruence || lia). Qed.

Lemma textures_kept_emit e s : negb (is_texture_event e) = true -> textures_kept s (emit e s).
Proof.
  intros He. unfold textures_kept, created_textures, deleted_textures_of.
  cbn [emit log textureCache nextHandle]. rewrite !omap_app.
  destruct e; try done; cbn; by rewrite !app_nil_r.
Qed.

Lemma textures_kept_sound s s' : textures_kept s s' -> textures_sound s -> textures_sound s'.
Proof.
  intros (Hc & Hcr & Hdel & Hh) ((Huse & Hperm) & Hnd & Hlt).
  unfold textures_sound, textures_accounted, cached_textures.
  rewrite Hc, Hcr, Hdel. repeat split; try done.
  eapply Forall_impl; [exact Hlt|]. intros t Ht. cbn in *. lia.
Qed.

Ltac textures_kept_side :=
  first [ exact textures_kept_refl | exact textures_kept_trans | exact textures_kept_emit
        | done | by intros; repeat split; cbn; try lia ].

Lemma textures_kept_getRect host e s : textures_kept s (getRect host e s).2.
Proof.
  apply (footprint_getRect textures_kept (fun e => negb (is_texture_event e)));
    textures_kept_side.
Qed.

Lemma textures_kept_recalcOutlines host s : textures_kept s (recalcOutlines host s).
Proof.
  apply (footprint_recalcOutlines textures_kept (fun e => negb (is_texture_event e)));
    textures_kept_side.
Qed.

Lemma textures_kept_paintOutlineGL o s : textures_kept s (paintOutlineGL o s).2.
Proof.
  apply (footprint_paintOutlineGL textures_kept (fun e => negb (is_texture_event e)));
    textures_kept_side.
Qed.

Lemma textures_kept_flushOutlinesGL previous s : textures_kept s (flushOutlinesGL previous s).
Proof.
  apply (footprint_flushOutlinesGL textures_kept (fun e => negb (is_texture_event e)));
    textures_kept_side.
Qed.

Lemma textures_kept_event_loop_turn s : textures_kept s (event_loop_turn s).
Proof.
  apply (footprint_event_loop_turn textures_kept (fun e => negb (is_texture_event e)));
    textures_kept_side.
Qed.

Lemma createTextTexture_sound label s :
  omap_has label (textureCache s) = false ->
  textures_sound s -> textures_sound (createTextTexture label s).2.
Proof.
  unfold omap_has, createTextTexture. intros Hhas ((Huse & Hperm) & Hnd & Hlt).
  destruct (omap_get label (textureCache s)) eqn:Hg; [done|].
  cbn [fresh_handle snd emit set_nextHandle set_textureCache textureCache].
  rewrite (omap_set_absent _ _ _ Hg).
  unfold textures_sound, textures_accounted, cached_textures, created_textures,
    deleted_textures_of in *.
  cbn [log textureCache nextHandle set_textureCache emit set_nextHandle].
  rewrite !omap_app, fmap_app. cbn. rewrite app_nil_r.
  repeat split.
  - apply Forall_app. split; [done|]. by apply Forall_singleton.
  - rewrite Hperm. rewrite <- !app_assoc. apply Permutation_app_head, Permutation_app_comm.
  - apply NoDup_app. split; [done|]. split; [|apply NoDup_singleton].
    intros t Ht ->%list_elem_of_singleton.
    rewrite Forall_forall in Hlt. specialize (Hlt _ Ht). cbn in Hlt. lia.
  - apply Forall_app. split.
    + eapply Forall_impl; [exact Hlt|]. intros t Ht. cbn in *. lia.
    + apply Forall_singleton. lia.
Qed.

Lemma assemble_one_sound host a s :
  textures_sound s -> textures_sound (assemble_one host a s).2.
Proof.
  intros Hs. unfold assemble_one.
  set (s1 := if _ && _ then _ else s).
  assert (textures_sound s1) as H1.
  { subst s1. destruct (omap_has _ _) eqn:Hhas; cbn [negb andb]; [done|].
    destruct (isOutlineUnstable _); [by apply createTextTexture_sound|done]. }
  clearbody s1.
  pose proof (textures_kept_getRect host (domNode (outline a)) s1) as H2.
  destruct (getRect _ _ _) as [newRect s2]. cbn [snd] in *.
  by apply (textures_kept_sound s1).
Qed.

Lemma assemble_all_sound host l s :
  textures_sound s -> textures_sound (assemble_all host l s).2.
Proof.
  revert s. induction l as [|a l IH]; intros s Hs; [done|]. cbn [assemble_all].
  pose proof (assemble_one_sound host a s Hs) as H1.
  destruct (assemble_one host a s) as [a' s1]. cbn [snd] in H1.
  specialize (IH s1 H1). by destruct (assemble_all host l s1).
Qed.

Lemma drawOutlines_sound host s :
  textures_sound s -> textures_sound (drawOutlines host s).2.
Proof.
  intros Hs. unfold drawOutlines, assembleOutlinesDrawArraysInstanced.
  destruct (negb (programValid host)); [done|].
  destruct (negb (programLinked host)); [done|].
  destruct (negb (attribsFound host)); [done|].
  pose proof (assemble_all_sound host (activeOutlines s) s Hs) as H1.
  destruct (assemble_all _ _ _) as [l s1]. cbn [snd] in *.
  eapply textures_kept_sound; [|exact H1].
  eapply textures_kept_trans; [|by apply textures_kept_emit]. by repeat split.
Qed.

Lemma deleted_textures_all m :
  Forall (fun kv : option string * TextureInfo => useCount kv.2 = 1%nat) m ->
  deleted_textures_of (deleted_textures m) = (fun kv => texture kv.2) <$> m /\
  created_textures (deleted_textures m) = [].
Proof.
  unfold deleted_textures_of, created_textures, deleted_textures.
  induction 1 as [|kv m Hkv _ [IH1 IH2]]; [done|].
  rewrite filter_cons_True by (by rewrite Hkv). rewrite !fmap_cons.
  split.
  - etrans; [apply (omap_app _ [_])|]. by rewrite IH1.
  - etrans; [apply (omap_app _ [_])|]. by rewrite IH2.
Qed.

Lemma idle_cleanup_sound s : textures_sound s -> textures_sound (idle_cleanup s).
Proof.
  intros ((Huse & Hperm) & Hnd & Hlt). rewrite idle_cleanup_state.
  destruct (deleted_textures_all _ Huse) as [Hdel Hcr].
  unfold textures_sound, textures_accounted, cached_textures, created_textures,
    deleted_textures_of in *.
  cbn [log textureCache nextHandle]. rewrite !omap_app, Hdel, Hcr, !app_nil_r.
  repeat split; try done.
  cbn. rewrite Hperm. apply Permutation_app_comm.
Qed.

Lemma fadeOutOutlineGL_sound host s :
  textures_sound s -> textures_sound (fadeOutOutlineGL host s).
Proof.
  intros Hs. unfold fadeOutOutlineGL. destruct (activeOutlines s); [by apply idle_cleanup_sound|].
  pose proof (drawOutlines_sound host s Hs) as H1.
  destruct (drawOutlines host s) as [ok s1]. cbn [snd] in H1.
  eapply textures_kept_sound; [|exact H1].
  unfold request_frame. cbn [fresh_handle].
  eapply textures_kept_trans; [|by apply textures_kept_emit].
  repeat split; cbn; lia.
Qed.

Lemma textures_sound_step s op : textures_sound s -> textures_sound (step s op).
Proof.
  intros Hs. destruct op as [batch| | |host|host|o]; cbn [step].
  - eapply textures_kept_sound; [|exact Hs]. by repeat split.
  - eapply textures_kept_sound; [apply textures_kept_flushOutlinesGL|exact Hs].
  - eapply textures_kept_sound; [apply textures_kept_event_loop_turn|exact Hs].
  - by apply fadeOutOutlineGL_sound.
  - eapply textures_kept_sound; [apply textures_kept_recalcOutlines|exact Hs].
  - eapply textures_kept_sound; [apply textures_kept_paintOutlineGL|exact Hs].
Qed.

Lemma textures_sound_run ops s : textures_sound s -> textures_sound (run ops s).
Proof.
  unfold run. revert s. induction ops as [|op ops IH]; intros s Hs; [done|].
  cbn [fold_left]. by apply IH, textures_sound_step.
Qed.

(** X12: however the engine is driven from its initial state, the label
    textures are accounted for: every cached label has a use count of 1, no
    texture handle is created twice, and the textures created so far are
    exactly the cached ones together with the deleted ones, so that no
    texture was deleted twice, none is deleted while still cached, and every
    texture that left the cache was deleted. *)
Theorem textures_accounted_in_every_run opts ops :
  textures_accounted (run ops (initial opts)) /\
  NoDup (created_textures (log (run ops (initial opts)))) /\
  NoDup (cached_textures (run ops (initial opts)) ++
         deleted_textures_of (log (run ops (initial opts)))).
Proof.
  assert (textures_sound (run ops (initial opts))) as ((Huse & Hperm) & Hnd & Hlt).
  { apply textures_sound_run. repeat split; cbn; try done; constructor. }
  repeat split; try done. by rewrite <- Hperm.
Qed.

(** ** Invariants of the registry *)

Lemma loop_kept_refl s : loop_kept s s.
Proof. by split. Qed.

Lemma loop_kept_trans s1 s2 s3 : loop_kept s1 s2 -> loop_kept s2 s3 -> loop_kept s1 s3.
Proof. intros [? ?] [? ?]. split; (congruence || lia). Qed.

Ltac loop_kept_side :=
  first [ exact loop_kept_refl | exact loop_kept_trans | done
        | by intros; split; cbn; try lia ].

Lemma loop_kept_getRect host e s : loop_kept s (getRect host e s).2.
Proof. apply (footprint_getRect loop_kept (fun _ => true)); loop_kept_side. Qed.

Lemma loop_kept_recalcOutlines host s : loop_kept s (recalcOutlines host s).
Proof. apply (footprint_recalcOutlines loop_kept (fun _ => true)); loop_kept_side. Qed.

Lemma loop_kept_createTextTexture label s : loop_kept s (createTextTexture label s).2.
Proof.
  unfold createTextTexture. destruct (omap_get _ _); [done|].
  cbn [fresh_handle snd]. split; cbn; [done|lia].
Qed.

Lemma registry_sound_next s s' :
  registry_sound s ->
  resolve <$> activeOutlines s' `sublist_of` resolve <$> activeOutlines s ->
  (nextHandle s <= nextHandle s')%nat ->
  (activeOutlines s' <> [] -> animationFrameId s' <> None) ->
  Forall outline_bounded (activeOutlines s') ->
  registry_sound s'.
Proof.
  intros ((Hnd & Hlt) & _ & _) Hsub Hh Hf Hb. repeat split; try done.
  - by eapply sublist_NoDup.
  - rewrite Forall_forall in Hlt. apply Forall_forall. intros p Hp.
    pose proof (Hlt p (elem_of_sublist _ _ _ Hp Hsub)). lia.
Qed.

Lemma registry_sound_same s s' :
  activeOutlines s' = activeOutlines s -> animationFrameId s' = animationFrameId s ->
  nextHandle s' = nextHandle s -> registry_sound s -> registry_sound s'.
Proof.
  intros Ha Hf Hh Hs. pose proof Hs as (_ & Hp & Hb).
  apply (registry_sound_next s); rewrite ?Ha, ?Hf, ?Hh; done.
Qed.

Lemma refresh_first_resolve key o frames c l :
  resolve <$> refresh_first key o frames c l = resolve <$> l.
Proof.
  induction l as [|a l IH]; [done|]. cbn [refresh_first].
  destruct (same_key key a); rewrite !fmap_cons; [done|by rewrite IH].
Qed.

Lemma refresh_first_bounded key o frames c l :
  (frames = 30%nat \/ frames = 60%nat) ->
  Forall outline_bounded l -> Forall outline_bounded (refresh_first key o frames c l).
Proof.
  intros Hfr. induction 1 as [|a l Ha Hl IH]; [done|]. cbn [refresh_first].
  destruct (same_key key a); constructor; try done.
  unfold outline_bounded, refresh. cbn. repeat split; (done || lia).
Qed.

Lemma paint_frames_window o : paint_frames o = 30%nat \/ paint_frames o = 60%nat.
Proof. unfold paint_frames. destruct (isOutlineUnstable o); auto. Qed.

Lemma paintOutlineGL_loop o s :
  animationFrameId (paintOutlineGL o s).2 <> None /\
  (S (nextHandle s) <= nextHandle (paintOutlineGL o s).2)%nat.
Proof.
  unfold paintOutlineGL, request_frame. cbn [fresh_handle snd].
  destruct (onPaintStart _); destruct (find _ _);
    cbn; destruct (animationFrameId s) eqn:Hid; cbn; rewrite ?Hid; split; (done || lia).
Qed.

Lemma paintOutlineGL_sound o s :
  registry_sound s -> registry_sound (paintOutlineGL o s).2.
Proof.
  intros Hs. pose proof Hs as ((Hnd & Hlt) & _ & Hb).
  destruct (paintOutlineGL_loop o s) as [Hf Hh].
  pose proof (paintOutlineGL_active o s) as Ha.
  set (s' := (paintOutlineGL o s).2) in *. clearbody s'.
  destruct (find _ _).
  - apply (registry_sound_next s); rewrite ?Ha; try done; try lia.
    + by rewrite refresh_first_resolve.
    + apply refresh_first_bounded; [apply paint_frames_window|done].
  - split; [split|split]; rewrite ?Ha; [| |by intros _|].
    + rewrite fmap_app. apply NoDup_app. split; [done|]. split; [|apply NoDup_singleton].
      intros p Hp ->%list_elem_of_singleton.
      rewrite Forall_forall in Hlt. specialize (Hlt _ Hp). cbn in Hlt. lia.
    + rewrite fmap_app. apply Forall_app. split.
      * eapply Forall_impl; [exact Hlt|]. intros p Hp. cbn in *. lia.
      * apply Forall_singleton. cbn. lia.
    + apply Forall_app. split; [done|]. apply Forall_singleton.
      unfold outline_bounded. cbn. pose proof (paint_frames_window o).
      repeat split; (done || lia).
Qed.

Lemma paint_fold_sound previous l acc :
  registry_sound acc.2 ->
  registry_sound (fold_left (paint_unless_previous previous) l acc).2.
Proof.
  revert acc. induction l as [|o l IH]; intros acc Hs; [done|]. cbn [fold_left].
  apply IH. destruct acc as [awaited s]. unfold paint_unless_previous.
  destruct (omap_has _ _); [done|].
  pose proof (paintOutlineGL_sound o s Hs). by destruct (paintOutlineGL o s).
Qed.

Lemma flushOutlinesGL_sound previous s :
  registry_sound s -> registry_sound (flushOutlinesGL previous s).
Proof.
  intros Hs. unfold flushOutlinesGL. destruct (scheduledOutlines s) as [|o0 q]; [done|].
  pose proof (paint_fold_sound previous
                (mergeOutlines ((o0 :: q) ++ scheduledOutlines (set_scheduled [] s)))
                ([], set_scheduled [] (set_scheduled [] s))) as H1.
  destruct (fold_left _ _ _) as [awaited s3]. cbn [snd] in H1.
  apply (registry_sound_same s3); try done. apply H1.
  by apply (registry_sound_same s).
Qed.

Lemma event_loop_turn_sound s : registry_sound s -> registry_sound (event_loop_turn s).
Proof.
  intros Hs. unfold event_loop_turn.
  assert (forall fs st, registry_sound st -> registry_sound (fold_left resume_flight fs st))
    as Hfold.
  { induction fs as [|f fs IH]; intros st Hst; [done|]. cbn [fold_left].
    apply IH. unfold resume_flight. destruct (pendingPaints _).
    - destruct (scheduledOutlines st); [done|by apply flushOutlinesGL_sound].
    - by apply (registry_sound_same st). }
  apply Hfold. by apply (registry_sound_same s).
Qed.

Lemma recalc_active_resolve host l s :
  resolve <$> (recalc_active host l s).1 `sublist_of` resolve <$> l.
Proof.
  induction l as [|a l IH]; [done|]. cbn [recalc_active].
  destruct (recalc_active host l s) as [kept s1]. cbn [fst] in IH.
  destruct (getRect _ _ _) as [[rc|] s2]; cbn [fst]; rewrite !fmap_cons.
  - by apply sublist_skip.
  - by apply sublist_cons.
Qed.

Lemma recalc_active_bounded host l s :
  Forall outline_bounded l -> Forall outline_bounded (recalc_active host l s).1.
Proof.
  induction 1 as [|a l Ha Hl IH]; [done|]. cbn [recalc_active].
  destruct (recalc_active host l s) as [kept s1]. cbn [fst] in IH.
  destruct (getRect _ _ _) as [[rc|] s2]; cbn [fst]; [|done].
  constructor; [|done]. exact Ha.
Qed.

Lemma recalcOutlines_sound host s : registry_sound s -> registry_sound (recalcOutlines host s).
Proof.
  intros Hs. pose proof Hs as (_ & Hp & Hb).
  destruct (loop_kept_recalcOutlines host s) as [Hf Hh].
  destruct (recalcOutlines_lists host s) as (_ & Ha & _).
  apply (registry_sound_next s); rewrite ?Ha, ?Hf; try done.
  - apply recalc_active_resolve.
  - intros Hne. apply Hp. intros Hnil. apply Hne. by rewrite Hnil.
  - by apply recalc_active_bounded.
Qed.

Lemma assemble_one_loop host a s : loop_kept s (assemble_one host a s).2.
Proof.
  unfold assemble_one.
  set (s1 := if _ && _ then _ else s).
  assert (loop_kept s s1) as H1.
  { subst s1. destruct (_ && _); [apply loop_kept_createTextTexture|apply loop_kept_refl]. }
  clearbody s1.
  pose proof (loop_kept_getRect host (domNode (outline a)) s1) as H2.
  destruct (getRect _ _ _) as [newRect s2]. cbn [snd] in *.
  by apply (loop_kept_trans _ s1).
Qed.

Lemma alpha_in_range (unstable : bool) (frame total : nat) :
  (frame <= total)%nat -> (total = 30%nat \/ total = 60%nat) ->
  let alpha := ((if unstable then 1 else 1 # 5) *
                (1 - inject_Z (Z.of_nat frame) / inject_Z (Z.of_nat total)))%Q in
  (0 <= alpha)%Q /\ (alpha <= 1)%Q.
Proof.
  intros Hle Htotal. cbn zeta.
  assert (0 <= inject_Z (Z.of_nat frame))%Q as H0.
  { change 0%Q with (inject_Z 0). rewrite <- Zle_Qle. lia. }
  assert (inject_Z (Z.of_nat frame) <= inject_Z (Z.of_nat total))%Q as H1.
  { rewrite <- Zle_Qle. lia. }
  set (f := inject_Z (Z.of_nat frame)) in *. clearbody f.
  destruct Htotal as [-> | ->];
    [change (inject_Z (Z.of_nat 30)) with (30 # 1)%Q in *
    |change (inject_Z (Z.of_nat 60)) with (60 # 1)%Q in *];
    unfold Qdiv;
    [change (/ (30 # 1))%Q with (1 # 30)%Q|change (/ (60 # 1))%Q with (1 # 60)%Q];
    destruct unstable; split; lra.
Qed.

Lemma assemble_one_life host a s :
  outline_bounded a ->
  let a' := (assemble_one host a s).1 in
  resolve a' = resolve a /\ frame a' = S (frame a) /\ totalFrames a' = totalFrames a /\
  (0 <= alpha a')%Q /\ (alpha a' <= 1)%Q.
Proof.
  intros (Hle & Htotal & _). cbn zeta. unfold assemble_one.
  destruct (getRect _ _ _) as [newRect s2]. cbn [fst resolve frame totalFrames alpha].
  do 3 (split; [done|]). by apply alpha_in_range.
Qed.

Lemma assemble_all_life host l s :
  Forall outline_bounded l ->
  resolve <$> (assemble_all host l s).1 = resolve <$> l /\
  Forall outline_bounded (filter (fun a => negb (expired a)) (assemble_all host l s).1) /\
  loop_kept s (assemble_all host l s).2.
Proof.
  intros Hb. revert s. induction Hb as [|a l Ha Hl IH]; intros s.
  { split; [done|]. split; [constructor|apply loop_kept_refl]. }
  cbn [assemble_all].
  pose proof (assemble_one_life host a s Ha) as (Hr & Hf & Ht & H0 & H1).
  pose proof (assemble_one_loop host a s) as Hk.
  destruct (assemble_one host a s) as [a' s1]. cbn [fst snd] in *.
  destruct (IH s1) as (IHr & IHb & IHk).
  destruct (assemble_all host l s1) as [l' s2]. cbn [fst snd] in *.
  split; [by rewrite !fmap_cons, Hr, IHr|]. split; [|by apply (loop_kept_trans _ s1)].
  rewrite filter_cons. destruct (decide _) as [Hlive|]; [|done].
  constructor; [|done]. destruct Ha as (_ & Htotal & _).
  unfold expired in Hlive. apply Is_true_true, negb_true_iff, Nat.ltb_ge in Hlive.
  unfold outline_bounded. rewrite Ht. repeat split; (done || lia).
Qed.

Lemma fadeOutOutlineGL_sound_registry host s :
  registry_sound s -> registry_sound (fadeOutOutlineGL host s).
Proof.
  intros Hs. pose proof Hs as (_ & _ & Hb). unfold fadeOutOutlineGL.
  destruct (activeOutlines s) as [|a0 l0] eqn:Hact.
  - pose proof (idle_cleanup_active s) as Ha. rewrite idle_cleanup_state in *.
    apply (registry_sound_next s); cbn [activeOutlines nextHandle] in *; rewrite ?Hact; done.
  - rewrite <- Hact in *. clear Hact a0 l0.
    destruct (assemble_all_life host (activeOutlines s) s Hb) as (Hr & Hfb & Hk).
    unfold drawOutlines, assembleOutlinesDrawArraysInstanced.
    assert (forall st, activeOutlines st = activeOutlines s ->
                       (nextHandle s <= nextHandle st)%nat ->
                       registry_sound
                         (request_frame
                            (set_active (filter (fun a => negb (expired a)) (activeOutlines st))
                                        st))) as Hskip.
    { intros st Ha Hh. apply (registry_sound_next s); cbn; try done; try lia.
      - rewrite Ha. apply fmap_sublist, sublist_filter.
      - rewrite Ha. rewrite Forall_forall in Hb. apply Forall_forall.
        intros a [_ Hin]%list_elem_of_filter. by apply Hb. }
    destruct (negb (programValid host)); [by apply Hskip|].
    destruct (negb (programLinked host)); [by apply Hskip|].
    destruct (negb (attribsFound host)); [by apply Hskip|].
    destruct (assemble_all _ _ _) as [l s1]. cbn [fst snd] in *. destruct Hk as [_ Hh].
    apply (registry_sound_next s); cbn; try done; try lia.
    rewrite <- Hr. apply fmap_sublist, sublist_filter.
Qed.

Lemma registry_sound_step s op : registry_sound s -> registry_sound (step s op).
Proof.
  intros Hs. destruct op as [batch| | |host|host|o]; cbn [step].
  - by apply (registry_sound_same s).
  - by apply flushOutlinesGL_sound.
  - by apply event_loop_turn_sound.
  - by apply fadeOutOutlineGL_sound_registry.
  - by apply recalcOutlines_sound.
  - by apply paintOutlineGL_sound.
Qed.

Lemma registry_sound_run ops s : registry_sound s -> registry_sound (run ops s).
Proof.
  unfold run. revert s. induction ops as [|op ops IH]; intros s Hs; [done|].
  cbn [fold_left]. by apply IH, registry_sound_step.
Qed.

Lemma registry_sound_initial opts : registry_sound (initial opts).
Proof.
  split; [split|split]; cbn.
  - apply NoDup_nil_2.
  - apply Forall_nil_2.
  - by intros Hne.
  - apply Forall_nil_2.
Qed.

(** X13: however the engine is driven from its initial state, the
    resolvers stored in the registry are pairwise distinct handles that the
    host has handed out, so that each active region is identified by the
    promise of the paint that created it. *)
Theorem resolvers_stay_distinct opts ops :
  resolvers_fresh (run ops (initial opts)).
Proof. apply (registry_sound_run ops (initial opts) (registry_sound_initial opts)). Qed.

(** X14: however the engine is driven from its initial state, a non-empty
    registry has an animation frame pending: no region stays in the registry
    without a tick to come that fades it. *)
Theorem frame_pending_while_active opts ops :
  frame_pending (run ops (initial opts)).
Proof. apply (registry_sound_run ops (initial opts) (registry_sound_initial opts)). Qed.

(** X15: however the engine is driven from its initial state, every active
    region is within its fade window ([frame <= totalFrames]), the window is
    30 or 60 frames, and the opacity handed to the GPU lies between 0 and
    1. *)
Theorem active_outlines_stay_bounded opts ops :
  Forall outline_bounded (activeOutlines (run ops (initial opts))).
Proof. apply (registry_sound_run ops (initial opts) (registry_sound_initial opts)). Qed.

(** ** What one tick asks of the host *)

Lemma gains_assembly_getRect host e s : gains is_assembly_event s (getRect host e s).2.
Proof.
  apply (footprint_getRect (gains is_assembly_event) is_assembly_event);
    first [ apply gains_refl | apply gains_trans | apply gains_emit
          | done | by intros; apply gains_same_log ].
Qed.

Lemma gains_assembly_createTextTexture label s :
  gains is_assembly_event s (createTextTexture label s).2.
Proof.
  unfold createTextTexture. destruct (omap_get _ _); [by apply gains_same_log|].
  cbn [fresh_handle snd]. exists [EvCreateTexture (nextHandle s) label].
  split; [done|]. by apply Forall_singleton.
Qed.

Lemma assemble_one_gains host a s : gains is_assembly_event s (assemble_one host a s).2.
Proof.
  unfold assemble_one.
  set (s1 := if _ && _ then _ else s).
  assert (gains is_assembly_event s s1) as H1.
  { subst s1. destruct (_ && _); [apply gains_assembly_createTextTexture|apply gains_refl]. }
  clearbody s1.
  pose proof (gains_assembly_getRect host (domNode (outline a)) s1) as H2.
  destruct (getRect _ _ _) as [newRect s2]. cbn [snd] in *.
  by apply (gains_trans _ _ s1).
Qed.

Lemma assemble_all_gains host l s :
  gains is_assembly_event s (assemble_all host l s).2 /\
  length (assemble_all host l s).1 = length l /\
  (nextHandle s <= nextHandle (assemble_all host l s).2)%nat.
Proof.
  revert s. induction l as [|a l IH]; intros s.
  { split; [apply gains_refl|done]. }
  cbn [assemble_all].
  pose proof (assemble_one_gains host a s) as H1.
  pose proof (assemble_one_loop host a s) as [_ Hh1].
  destruct (assemble_one host a s) as [a' s1]. cbn [snd] in *.
  destruct (IH s1) as (H2 & Hlen & Hh2).
  destruct (assemble_all host l s1) as [l' s2]. cbn [fst snd length] in *.
  split; [by apply (gains_trans _ _ s1)|]. split; [by rewrite Hlen|lia].
Qed.

(** X16: a tick on a non-empty registry asks the host, in this order: for
    the layout reads and label textures of the assembly loop, for one
    instanced draw of as many instances as the registry held when the tick
    began (regions that expire on this tick included), and for exactly one
    further animation frame, whose handle it stores.  When the outline
    program is unusable the tick only asks for the next frame. *)
Theorem tick_draws_whole_registry host s :
  activeOutlines s <> [] ->
  exists reads id,
    log (fadeOutOutlineGL host s) =
      log s ++ reads ++
      (if drawable host then [EvDrawInstanced (length (activeOutlines s))] else []) ++
      [EvRequestFrame id] /\
    animationFrameId (fadeOutOutlineGL host s) = Some id /\
    (nextHandle s <= id)%nat /\
    Forall (fun e => is_assembly_event e = true) reads /\
    (drawable host = false -> reads = []).
Proof.
  intros Hne. unfold fadeOutOutlineGL.
  destruct (activeOutlines s) as [|a0 l0] eqn:Hact; [done|]. rewrite <- Hact. clear Hne.
  unfold drawOutlines, drawable, assembleOutlinesDrawArraysInstanced.
  assert (forall ok, exists reads id,
            log (let '(_, s1) := (ok : bool, s) in
                 request_frame
                   (set_active (filter (fun a => negb (expired a)) (activeOutlines s1)) s1)) =
              log s ++ reads ++ [] ++ [EvRequestFrame id] /\
            animationFrameId
              (let '(_, s1) := (ok, s) in
               request_frame
                 (set_active (filter (fun a => negb (expired a)) (activeOutlines s1)) s1)) =
              Some id /\
            (nextHandle s <= id)%nat /\
            Forall (fun e => is_assembly_event e = true) reads /\
            (false = false -> reads = [])) as Hskip.
  { intros ok. exists [], (nextHandle s). cbn. by repeat split. }
  destruct (programValid host); cbn [negb andb]; [|apply (Hskip false)].
  destruct (programLinked host); cbn [negb andb]; [|apply (Hskip false)].
  destruct (attribsFound host); cbn [negb andb]; [|apply (Hskip false)].
  destruct (assemble_all_gains host (activeOutlines s) s) as ((reads & Hlog & Hreads) & Hlen & Hh).
  destruct (assemble_all _ _ _) as [l s1]. cbn [fst snd] in *.
  exists reads, (nextHandle s1). cbn. rewrite Hlog, Hlen, <- !app_assoc.
  by repeat split.
Qed.

(** ** The update counters *)

Lemma paintOutlineGL_updateMap o s :
  componentUpdateMap (paintOutlineGL o s).2 =
  <[getOutlineKey o := S (default 0%nat (componentUpdateMap s !! getOutlineKey o))]>
    (componentUpdateMap s).
Proof.
  unfold paintOutlineGL, request_frame. cbn [fresh_handle snd].
  destruct (onPaintStart _); destruct (find _ _); cbn;
    destruct (animationFrameId s); cbn; by rewrite Nat.add_1_r.
Qed.

Lemma paint_fold_counts previous l acc key :
  NoDup (getOutlineKey <$> l) ->
  default 0%nat
    (componentUpdateMap (fold_left (paint_unless_previous previous) l acc).2 !! key) =
  (default 0%nat (componentUpdateMap acc.2 !! key) +
   bump (bool_decide (key ∈ getOutlineKey <$> l) && negb (omap_has key previous)))%nat.
Proof.
  revert acc. induction l as [|o l IH]; intros acc Hnd.
  { rewrite (bool_decide_eq_false_2 (key ∈ _)) by apply not_elem_of_nil. cbn. lia. }
  rewrite fmap_cons in Hnd. apply NoDup_cons in Hnd as [Hnotin Hnd].
  cbn [fold_left]. rewrite (IH _ Hnd). rewrite fmap_cons.
  destruct acc as [awaited s]. unfold paint_unless_previous at 1. cbn [snd].
  destruct (decide (key = getOutlineKey o)) as [->|Hne].
  - rewrite (bool_decide_eq_false_2 _ Hnotin).
    rewrite (bool_decide_eq_true_2 (getOutlineKey o ∈ getOutlineKey o :: _))
      by apply list_elem_of_here.
    cbn [andb]. destruct (omap_has _ _); cbn [negb bump snd]; [lia|].
    pose proof (paintOutlineGL_updateMap o s) as Hm.
    destruct (paintOutlineGL o s) as [p s1]. cbn [snd] in *.
    rewrite Hm, lookup_insert_eq. cbn. lia.
  - assert (bool_decide (key ∈ getOutlineKey o :: (getOutlineKey <$> l)) =
            bool_decide (key ∈ getOutlineKey <$> l)) as ->.
    { apply bool_decide_ext. rewrite elem_of_cons. naive_solver. }
    f_equal. destruct (omap_has (getOutlineKey o) previous); [done|].
    pose proof (paintOutlineGL_updateMap o s) as Hm.
    destruct (paintOutlineGL o s) as [p s1]. cbn [snd] in *.
    by rewrite Hm, lookup_insert_ne.
Qed.

Lemma mergeOutlines_key_elem l key :
  key ∈ getOutlineKey <$> mergeOutlines l <-> key ∈ getOutlineKey <$> l.
Proof.
  rewrite mergeOutlines_keys. pose proof (merged_map_get l key) as Hk.
  destruct (omap_get key (merged_map l)) as [o|] eqn:Hg.
  - destruct Hk as (_ & _ & Hin). split; [done|]. intros _.
    apply omap_get_elem in Hg. apply list_elem_of_fmap. by exists (key, o).
  - apply omap_get_None in Hg. done.
Qed.

(** X17: a flush raises the update counter of every key that occurs in the
    queue, and is not among the previous outlines, by exactly one, however
    many outlines and renders were scheduled under that key, and leaves the
    counter of every other key as it was: the color intensity counts the
    flushes in which a region took part, not its renders. *)
Theorem flushOutlinesGL_counts_each_key_once previous s key :
  default 0%nat (componentUpdateMap (flushOutlinesGL previous s) !! key) =
  (default 0%nat (componentUpdateMap s !! key) +
   bump (bool_decide (key ∈ getOutlineKey <$> scheduledOutlines s) &&
         negb (omap_has key previous)))%nat.
Proof.
  unfold flushOutlinesGL. destruct (scheduledOutlines s) as [|o0 q] eqn:Hq.
  { rewrite (bool_decide_eq_false_2 (key ∈ _)) by apply not_elem_of_nil. cbn. lia. }
  cbn [scheduledOutlines set_scheduled]. rewrite app_nil_r.
  pose proof (paint_fold_counts previous (mergeOutlines (o0 :: q))
                ([], set_scheduled [] (set_scheduled [] s)) key) as Hc.
  rewrite mergeOutlines_keys in Hc. specialize (Hc (merged_map_nodup _)).
  rewrite <- mergeOutlines_keys in Hc.
  destruct (fold_left _ _ _) as [awaited s3]. cbn [snd componentUpdateMap set_flights] in *.
  rewrite Hc. do 3 f_equal. apply bool_decide_ext, mergeOutlines_key_elem.
Qed.

(** ** One fade loop at a time *)

Lemma frames_requested_emit e s :
  frames_requested (emit e s) =
  (frames_requested s + bump (is_frame_request e))%nat.
Proof.
  unfold frames_requested. cbn [emit log]. rewrite filter_app, length_app.
  f_equal. by destruct e.
Qed.

Lemma loop_same_refl s : loop_same s s.
Proof. by split. Qed.

Lemma loop_same_trans s1 s2 s3 : loop_same s1 s2 -> loop_same s2 s3 -> loop_same s1 s3.
Proof. intros [? ?] [? ?]. split; congruence. Qed.

Lemma loop_same_emit e s : negb (is_frame_request e) = true -> loop_same s (emit e s).
Proof.
  intros He. split; [|done]. rewrite frames_requested_emit.
  destruct (is_frame_request e); [done|]. cbn. lia.
Qed.

Lemma loop_same_balance s s' : loop_same s s' -> loop_balance s' = loop_balance s.
Proof. intros [Hr Hf]. unfold loop_balance, armed. by rewrite Hr, Hf. Qed.

Ltac loop_same_side :=
  first [ exact loop_same_refl | exact loop_same_trans | exact loop_same_emit
        | done | by intros; split ].

Lemma loop_same_getRect host e s : loop_same s (getRect host e s).2.
Proof.
  apply (footprint_getRect loop_same (fun e => negb (is_frame_request e))); loop_same_side.
Qed.

Lemma loop_same_recalcOutlines host s : loop_same s (recalcOutlines host s).
Proof.
  apply (footprint_recalcOutlines loop_same (fun e => negb (is_frame_request e)));
    loop_same_side.
Qed.

Lemma loop_same_createTextTexture label s : loop_same s (createTextTexture label s).2.
Proof.
  unfold createTextTexture. destruct (omap_get _ _); [done|].
  cbn [fresh_handle snd].
  apply (loop_same_trans _ (emit (EvCreateTexture (nextHandle s) label)
                                 (set_nextHandle (S (nextHandle s)) s))); [|by split].
  apply (loop_same_trans _ (set_nextHandle (S (nextHandle s)) s));
    [by split|by apply loop_same_emit].
Qed.

Lemma loop_same_assemble_all host l s : loop_same s (assemble_all host l s).2.
Proof.
  revert s. induction l as [|a l IH]; intros s; [apply loop_same_refl|].
  cbn [assemble_all].
  assert (loop_same s (assemble_one host a s).2) as H1.
  { unfold assemble_one.
    set (s1 := if _ && _ then _ else s).
    assert (loop_same s s1) as H1.
    { subst s1. destruct (_ && _);
        [apply loop_same_createTextTexture|apply loop_same_refl]. }
    clearbody s1.
    pose proof (loop_same_getRect host (domNode (outline a)) s1) as H2.
    destruct (getRect _ _ _) as [newRect s2]. cbn [snd] in *.
    by apply (loop_same_trans _ s1). }
  destruct (assemble_one host a s) as [a' s1]. cbn [snd] in H1.
  specialize (IH s1). destruct (assemble_all host l s1) as [l' s2]. cbn [snd] in *.
  by apply (loop_same_trans _ s1).
Qed.

Lemma loop_same_drawOutlines host s : loop_same s (drawOutlines host s).2.
Proof.
  unfold drawOutlines, assembleOutlinesDrawArraysInstanced.
  destruct (negb (programValid host)); [apply loop_same_refl|].
  destruct (negb (programLinked host)); [apply loop_same_refl|].
  destruct (negb (attribsFound host)); [apply loop_same_refl|].
  pose proof (loop_same_assemble_all host (activeOutlines s) s) as H1.
  destruct (assemble_all _ _ _) as [l s1]. cbn [snd] in *.
  eapply loop_same_trans; [exact H1|].
  eapply loop_same_trans; [|by apply loop_same_emit]. by split.
Qed.

Lemma request_frame_balance s :
  frames_requested (request_frame s) = S (frames_requested s) /\ armed (request_frame s) = 1%nat.
Proof.
  unfold request_frame. cbn [fresh_handle]. rewrite frames_requested_emit.
  split; [|done]. cbn [bump is_frame_request]. unfold frames_requested.
  cbn [log set_frameId set_nextHandle]. lia.
Qed.

Lemma paintOutlineGL_balance o s : loop_balance (paintOutlineGL o s).2 = loop_balance s.
Proof.
  unfold paintOutlineGL. cbn [fresh_handle snd].
  set (s1 := if onPaintStart _ then _ else _).
  assert (loop_same s s1) as H1.
  { subst s1. destruct (onPaintStart _); [|by split].
    eapply loop_same_trans; [|by apply loop_same_emit]. by split. }
  clearbody s1.
  set (s3 := match find _ _ with Some _ => _ | None => _ end).
  assert (loop_same s1 s3) as H3 by (subst s3; destruct (find _ _); by split).
  clearbody s3.
  rewrite <- (loop_same_balance s s3) by (by apply (loop_same_trans _ s1)).
  destruct (animationFrameId s3) eqn:Hid; [done|].
  destruct (request_frame_balance s3) as [Hr Ha].
  unfold loop_balance. rewrite Hr, Ha. unfold armed. rewrite Hid. lia.
Qed.

Lemma paint_fold_balance previous l acc :
  loop_balance (fold_left (paint_unless_previous previous) l acc).2 = loop_balance acc.2.
Proof.
  revert acc. induction l as [|o l IH]; intros acc; [done|]. cbn [fold_left].
  rewrite IH. destruct acc as [awaited s]. unfold paint_unless_previous.
  destruct (omap_has _ _); [done|].
  pose proof (paintOutlineGL_balance o s). by destruct (paintOutlineGL o s).
Qed.

Lemma flushOutlinesGL_balance previous s :
  loop_balance (flushOutlinesGL previous s) = loop_balance s.
Proof.
  unfold flushOutlinesGL. destruct (scheduledOutlines s) as [|o0 q]; [done|].
  pose proof (paint_fold_balance previous
                (mergeOutlines ((o0 :: q) ++ scheduledOutlines (set_scheduled [] s)))
                ([], set_scheduled [] (set_scheduled [] s))) as H1.
  destruct (fold_left _ _ _) as [awaited s3]. cbn [snd] in H1.
  etrans; [|exact H1]. done.
Qed.

Lemma event_loop_turn_balance s : loop_balance (event_loop_turn s) = loop_balance s.
Proof.
  unfold event_loop_turn.
  assert (forall fs st, loop_balance (fold_left resume_flight fs st) = loop_balance st) as Hfold.
  { induction fs as [|f fs IH]; intros st; [done|]. cbn [fold_left].
    rewrite IH. unfold resume_flight. destruct (pendingPaints _); [|done].
    destruct (scheduledOutlines st); [done|apply flushOutlinesGL_balance]. }
  by rewrite Hfold.
Qed.

Lemma fadeOutOutlineGL_balance host s :
  armed s = 1%nat -> loop_balance (fadeOutOutlineGL host s) = loop_balance s + 1.
Proof.
  intros Harmed. unfold fadeOutOutlineGL. destruct (activeOutlines s).
  - rewrite idle_cleanup_state. unfold loop_balance, armed, frames_requested in *.
    cbn [log animationFrameId]. rewrite filter_app, length_app.
    assert (filter (fun e => is_frame_request e = true) (deleted_textures (textureCache s)) = [])
      as ->.
    { unfold deleted_textures. induction (filter _ (textureCache s)) as [|kv m IH]; [done|].
      rewrite fmap_cons, filter_cons_False; [done|]. cbn. done. }
    cbn [length]. destruct (animationFrameId s); [lia|done].
  - pose proof (loop_same_drawOutlines host s) as [Hr Hf].
    destruct (drawOutlines host s) as [ok s1]. cbn [snd] in *.
    set (s2 := set_active _ s1).
    destruct (request_frame_balance s2) as [Hr2 Ha2].
    unfold loop_balance. rewrite Hr2, Ha2, Harmed.
    change (frames_requested s2) with (frames_requested s1). lia.
Qed.

Lemma step_balance s op :
  (forall host, op <> OpTick host) -> loop_balance (step s op) = loop_balance s.
Proof.
  intros Hop. destruct op as [batch| | |host|host|o]; cbn [step].
  - done.
  - apply flushOutlinesGL_balance.
  - apply event_loop_turn_balance.
  - by destruct (Hop host).
  - apply loop_same_balance, loop_same_recalcOutlines.
  - apply paintOutlineGL_balance.
Qed.

Lemma browser_step_balance b op :
  loop_balance (browser_state b) = Z.of_nat (framesRun b) ->
  loop_balance (browser_state (browser_step b op)) = Z.of_nat (framesRun (browser_step b op)).
Proof.
  intros Hb.
  destruct op as [batch| | |host|host|o];
    try (cbn [browser_step browser_state framesRun]; rewrite step_balance; done).
  cbn [browser_step]. unfold frames_queued.
  destruct (Nat.ltb_spec 0 (frames_requested (browser_state b) - framesRun b)) as [Hq|Hq];
    [|done].
  cbn [browser_state framesRun]. rewrite fadeOutOutlineGL_balance; [lia|].
  unfold loop_balance in Hb. unfold armed in *. destruct (animationFrameId _); [done|]. lia.
Qed.

Lemma browser_run_balance ops b :
  loop_balance (browser_state b) = Z.of_nat (framesRun b) ->
  loop_balance (browser_state (browser_run ops b)) = Z.of_nat (framesRun (browser_run ops b)).
Proof.
  unfold browser_run. revert b. induction ops as [|op ops IH]; intros b Hb; [done|].
  cbn [fold_left]. by apply IH, browser_step_balance.
Qed.

(** X18: in a browser that runs a tick only for a queued frame callback,
    and however else the engine is driven from its initial state, the frame
    callbacks still queued number one when [animationFrameId] is set and
    none when it is null: two fade loops never run side by side, and a set
    frame handle always has its callback to come. *)
Theorem one_fade_loop opts ops :
  frames_queued (browser_run ops (mkBrowser (initial opts) 0)) =
  armed (browser_state (browser_run ops (mkBrowser (initial opts) 0))).
Proof.
  pose proof (browser_run_balance ops (mkBrowser (initial opts) 0) eq_refl) as Hb.
  unfold frames_queued, loop_balance in *. lia.
Qed.

Lemma browser_run_sound ops b :
  registry_sound (browser_state b) -> registry_sound (browser_state (browser_run ops b)).
Proof.
  unfold browser_run. revert b. induction ops as [|op ops IH]; intros b Hb; [done|].
  cbn [fold_left]. apply IH.
  destruct op as [batch| | |host|host|o];
    try (cbn [browser_step browser_state]; by apply registry_sound_step).
  cbn [browser_step]. destruct (0 <? frames_queued b)%nat; [|done].
  by apply (registry_sound_step _ (OpTick host)).
Qed.

(** X19: in such a browser a non-empty registry has exactly one tick
    queued: the regions on screen are always about to be faded, and by one
    loop only. *)
Theorem active_registry_has_one_tick_queued opts ops :
  activeOutlines (browser_state (browser_run ops (mkBrowser (initial opts) 0))) <> [] ->
  frames_queued (browser_run ops (mkBrowser (initial opts) 0)) = 1%nat.
Proof.
  intros Hne.
  pose proof (browser_run_balance ops (mkBrowser (initial opts) 0) eq_refl) as Hb.
  pose proof (browser_run_sound ops (mkBrowser (initial opts) 0)
                (registry_sound_initial opts)) as (_ & Hpending & _).
  specialize (Hpending Hne).
  unfold frames_queued, loop_balance, armed in *.
  destruct (animationFrameId _); [lia|done].
Qed.

(** ** The resize listeners of the overlays *)

Lemma count_events_snoc p evs ev :
  count_events p (evs ++ [ev]) = (count_events p evs + bump (p ev))%nat.
Proof.
  unfold count_events. rewrite filter_app, length_app. f_equal.
  destruct (p ev) eqn:Hp.
  - by rewrite filter_cons_True.
  - rewrite filter_cons_False; [done|]. by rewrite Hp.
Qed.

Lemma overlay_queue_invariant evs :
  let ov := fold_left overlay_step evs createOverlay in
  queuedResizes ov = bump (resizeScheduled ov) /\
  (recalcCalls ov + count_events is_frame evs = length evs)%nat /\
  (resizeRuns ov <= 1 + count_events is_frame evs)%nat.
Proof.
  cbn zeta. induction evs as [|ev evs IH] using rev_ind.
  { cbn. lia. }
  rewrite fold_left_app. cbn [fold_left].
  set (ov := fold_left overlay_step evs createOverlay) in *. clearbody ov.
  destruct IH as (Hq & Hc & Hr).
  rewrite count_events_snoc, length_app.
  destruct ov as [scheduled queued runs recalcs]. cbn in Hq, Hc, Hr.
  destruct ev; cbn.
  - destruct scheduled; cbn in *; lia.
  - lia.
  - subst queued. destruct scheduled; cbn; lia.
Qed.

Lemma burst_then_frame burst ov :
  queuedResizes ov = bump (resizeScheduled ov) ->
  count_events is_frame burst = 0%nat ->
  let ov' := fold_left overlay_step burst ov in
  queuedResizes ov' = bump (resizeScheduled ov') /\
  resizeRuns ov' = resizeRuns ov /\
  resizeScheduled ov' =
    resizeScheduled ov || bool_decide (0 < count_events is_resize burst)%nat.
Proof.
  cbn zeta. intros Hq. induction burst as [|ev burst IH] using rev_ind; intros Hnf.
  { cbn. by rewrite orb_false_r. }
  rewrite count_events_snoc in Hnf.
  rewrite fold_left_app. cbn [fold_left].
  destruct IH as (IHq & IHr & IHs); [lia|].
  set (ov' := fold_left overlay_step burst ov) in *. clearbody ov'.
  rewrite count_events_snoc.
  destruct ov' as [scheduled queued runs recalcs]. cbn in IHq, IHr, IHs.
  destruct ev; cbn in Hnf |- *; [| |lia].
  - rewrite (bool_decide_eq_true_2 (0 < _ + 1)%nat) by lia. rewrite orb_true_r.
    destruct scheduled; cbn in *; repeat split; (done || lia).
  - rewrite Nat.add_0_r. done.
Qed.

(** X20: the 2D overlay coalesces resize events.  After any sequence of
    window events the overlay has one [resize] callback queued when
    [resizeScheduled] is set and none otherwise, and every resize and scroll
    event has called [recalcOutlines] once.  A burst of resize and scroll
    events that follows is answered at the next frame by exactly one run of
    [resize] when a resize was pending or the burst held a resize event, and
    by none otherwise; after that frame nothing is queued. *)
Theorem createOverlay_coalesces_resizes evs burst :
  count_events is_frame burst = 0%nat ->
  let before := fold_left overlay_step evs createOverlay in
  let after := fold_left overlay_step (burst ++ [WinFrame]) before in
  queuedResizes before = bump (resizeScheduled before) /\
  (recalcCalls before + count_events is_frame evs = length evs)%nat /\
  resizeRuns after =
    (resizeRuns before +
     bump (resizeScheduled before || bool_decide (0 < count_events is_resize burst)%nat))%nat /\
  resizeScheduled after = false /\ queuedResizes after = 0%nat.
Proof.
  intros Hnf. cbn zeta.
  destruct (overlay_queue_invariant evs) as (Hq & Hc & _). cbn zeta in *.
  split; [done|]. split; [done|].
  set (before := fold_left overlay_step evs createOverlay) in *. clearbody before.
  destruct (burst_then_frame burst before Hq Hnf) as (Hq1 & Hr1 & Hs1).
  cbn zeta in *. rewrite fold_left_app. cbn [fold_left overlay_step].
  set (ov := fold_left overlay_step burst before) in *. clearbody ov.
  rewrite <- Hs1, <- Hr1.
  destruct ov as [scheduled queued runs recalcs]. cbn in Hq1 |- *. subst queued.
  destruct scheduled; cbn; repeat split; lia.
Qed.

Lemma iter_resizeGL n ov :
  glResizeRuns (Nat.iter n resizeGL ov) = (glResizeRuns ov + n)%nat /\
  glQueuedResizes (Nat.iter n resizeGL ov) = glQueuedResizes ov.
Proof.
  induction n as [|n [IH1 IH2]]; [cbn; lia|]. rewrite Nat.iter_succ. cbn.
  rewrite IH1, IH2. lia.
Qed.

(** X21: the GL overlay does not coalesce: every resize event queues a
    callback of its own, so that after any sequence of window events the
    runs of [resize] and the callbacks still queued add up to one (the run
    at creation) more than the resize events seen, and a frame runs them
    all. *)
Theorem createGLOverlay_resizes_per_event evs :
  let ov := fold_left gl_overlay_step evs createGLOverlay in
  (glResizeRuns ov + glQueuedResizes ov = 1 + count_events is_resize evs)%nat /\
  glQueuedResizes (gl_overlay_step ov WinFrame) = 0%nat /\
  glResizeRuns (gl_overlay_step ov WinFrame) = (1 + count_events is_resize evs)%nat.
Proof.
  cbn zeta.
  assert (forall ov,
            glResizeRuns (onFrameGL ov) = (glResizeRuns ov + glQueuedResizes ov)%nat /\
            glQueuedResizes (onFrameGL ov) = 0%nat) as Hframe.
  { intros ov. unfold onFrameGL.
    destruct (iter_resizeGL (glQueuedResizes ov) (mkGLOverlay 0 (glResizeRuns ov)))
      as [H1 H2].
    by rewrite H1, H2. }
  assert (glResizeRuns (fold_left gl_overlay_step evs createGLOverlay) +
          glQueuedResizes (fold_left gl_overlay_step evs createGLOverlay) =
          1 + count_events is_resize evs)%nat as Hinv.
  { induction evs as [|ev evs IH] using rev_ind; [done|].
    rewrite fold_left_app, count_events_snoc. cbn [fold_left].
    set (ov := fold_left gl_overlay_step evs createGLOverlay) in *. clearbody ov.
    destruct ev; cbn [gl_overlay_step is_resize bump].
    - cbn. lia.
    - lia.
    - destruct (Hframe ov) as [-> ->]. lia. }
  split; [done|]. cbn [gl_overlay_step].
  destruct (Hframe (fold_left gl_overlay_step evs createGLOverlay)) as [-> ->].
  split; [done|lia].
Qed.

(** ** The label textures, from their creation to the idle tick *)

















End Engine.

(** * A concrete page

    An instance of the parameters for the examples below: renders are
    numbered, an outline counts as unstable once it has more than one
    render, every label reads the same and measures 30 pixels.  The page has
    two elements; [layout] puts them in two boxes one above the other,
    [layout_moved] puts both in the lower box. *)

Definition numbered_unstable (o : @PendingOutline nat) : bool :=
  (1 <? length (renders o))%nat.
Definition numbered_label (l : list nat) : option string := Some "App".
Definition fixed_measure (label : option string) : Z := 30.

Definition box_a : DOMRect := mkRect 10 10 100 50.
Definition box_b : DOMRect := mkRect 10 70 100 50.
Definition layout (e : HTMLElement) : DOMRect := if Nat.eqb e 1 then box_a else box_b.
Definition layout_moved (e : HTMLElement) : DOMRect := box_b.

(** A page whose clock reads [start + n] at the n-th reading. *)
Definition page (rects : HTMLElement -> DOMRect) (start : Z) (valid : bool) : Host :=
  mkHost (fun _ => mkStyle "block" "visible" "1") rects 1280 720
         (fun n => start + Z.of_nat n) valid true true.

Definition hidden_page (rects : HTMLElement -> DOMRect) : Host :=
  mkHost (fun _ => mkStyle "none" "visible" "1") rects 1280 720
         (fun n => Z.of_nat n) true true true.

Definition plain : Options := mkOptions None false false.

Definition once_a : @PendingOutline nat := mkPending box_a 1%nat [7%nat].
Definition again_a : @PendingOutline nat := mkPending box_a 1%nat [9%nat].
Definition once_b : @PendingOutline nat := mkPending box_b 2%nat [8%nat].
Definition twice_a : @PendingOutline nat := mkPending box_a 1%nat [7%nat; 9%nat].

Definition engine (opts : Options) (ops : list Op) : State :=
  run numbered_unstable numbered_label fixed_measure ops (initial opts).

Definition tick (host : Host) (s : State) : State :=
  fadeOutOutlineGL numbered_unstable fixed_measure host s.

(** The element of box a has been measured at time 0. *)
Definition measured : State :=
  (getRect (page layout 0 true) 1%nat (initial (Render := nat) plain)).2.

(** One outline scheduled, flushed, and a second one scheduled while that
    flush is parked. *)
Definition painted_a : State := engine plain [OpSchedule [once_a]; OpFlush].
Definition late_b : State := engine plain [OpSchedule [once_a]; OpFlush; OpSchedule [once_b]].

(** An unstable outline faded out completely: 61 ticks after its paint. *)
Definition faded : State :=
  engine plain (OpSchedule [twice_a] :: OpFlush :: replicate 61 (OpTick (page layout 0 true))).

(** * Where the code departs from the specification *)

(** C2, counterexample: a tick whose draw pass is skipped (the outline
    program fails validation) is a scheduled tick that does not advance the
    frame: the outline painted by the flush is still at frame 0 after it,
    and after three such ticks, where a tick with a draw pass brings it to
    frame 1. *)
Lemma tick_without_draw_pass_keeps_frame :
  frame_view <$> activeOutlines
    (engine plain [OpSchedule [once_a]; OpFlush; OpTick (page layout 0 false)])
    = [(1%nat, 0%nat, 30%nat)] /\
  frame_view <$> activeOutlines
    (engine plain (OpSchedule [once_a] :: OpFlush ::
                   replicate 3 (OpTick (page layout 0 false))))
    = [(1%nat, 0%nat, 30%nat)] /\
  frame_view <$> activeOutlines
    (engine plain [OpSchedule [once_a]; OpFlush; OpTick (page layout 0 true)])
    = [(1%nat, 1%nat, 30%nat)].
Proof. repeat split; by vm_compute. Qed.

(** C3, counterexample: two outlines painted under different keys; the
    layout then moves the first element onto the second, the tick re-reads
    both rectangles, and the registry holds two active outlines with one
    key. *)
Lemma registry_holds_one_key_twice :
  active_keys (activeOutlines (engine plain [OpSchedule [once_a; once_b]; OpFlush]))
    = ["10-10-100-50"; "70-10-100-50"] /\
  active_keys (activeOutlines
                 (engine plain [OpSchedule [once_a; once_b]; OpFlush;
                                OpTick (page layout_moved 0 true)]))
    = ["70-10-100-50"; "70-10-100-50"] /\
  ~ NoDup (active_keys (activeOutlines
                 (engine plain [OpSchedule [once_a; once_b]; OpFlush;
                                OpTick (page layout_moved 0 true)]))).
Proof.
  split; [by vm_compute|]. split; [by vm_compute|].
  intros Hnd. vm_compute in Hnd. apply NoDup_cons in Hnd as [Hnotin _].
  apply Hnotin, list_elem_of_here.
Qed.

(** C5, counterexample: the element was measured at time 0; one millisecond
    later its style says [display: none], yet [getRect] answers with the
    cached rectangle. *)
Lemma getRect_answers_from_cache_for_hidden_element :
  not_drawable (hidden_page layout) 1%nat /\
  (getRect (hidden_page layout) 1%nat measured).1 = Some box_a.
Proof. split; [left; left; reflexivity|by vm_compute]. Qed.



(** C9, counterexample: when the tick finds the registry empty the label
    texture cache holds the texture of the faded outline; after the tick the
    cache is empty and the texture has been deleted. *)
Lemma idle_tick_clears_texture_cache :
  activeOutlines faded = [] /\
  textureCache faded = [(Some "App", mkTexture 3 1 30 72)] /\
  textureCache (tick (page layout 0 true) faded) = [] /\
  last (log (tick (page layout 0 true) faded)) = Some (EvDeleteTexture 3).
Proof. repeat split; by vm_compute. Qed.

(** * The theorems at work on the concrete page *)

(** A stable outline has frame 2 after two ticks and is gone after 31; a
    new key enters the registry with frame 0. *)
Lemma frame_lifecycle_witness :
  (1%nat, 2%nat, 30%nat)
    ∈ frame_view <$> activeOutlines
        (ticks numbered_unstable fixed_measure
               [page layout 0 true; page layout 0 true] painted_a) /\
  (forall a', a' ∈ activeOutlines
                     (ticks numbered_unstable fixed_measure
                            (replicate 31 (page layout 0 true)) painted_a) ->
              resolve a' <> 1%nat) /\
  activeOutlines (paintOutlineGL numbered_unstable numbered_label once_b painted_a).2 =
    activeOutlines painted_a ++
    [mkActive once_b 1 0 30 3 (Some "App") (mkColor 116 97 229)].
Proof.
  destruct (frame_lifecycle numbered_unstable numbered_label fixed_measure)
    as (Hcreate & _ & Hrun).
  split; [|split].
  - apply (Hrun [page layout 0 true; page layout 0 true] painted_a
                (mkActive once_a 1 0 30 1 (Some "App") (mkColor 116 97 229))).
    + discriminate.
    + repeat constructor.
    + vm_compute. apply list_elem_of_here.
    + vm_compute. lia.
  - apply (Hrun (replicate 31 (page layout 0 true)) painted_a
                (mkActive once_a 1 0 30 1 (Some "App") (mkColor 116 97 229))).
    + discriminate.
    + apply Forall_replicate. reflexivity.
    + vm_compute. apply list_elem_of_here.
    + vm_compute. lia.
    + vm_compute. apply NoDup_singleton.
  - apply (Hcreate once_b painted_a). vm_compute.
    intros Hin. apply list_elem_of_singleton in Hin. discriminate.
Defined.

(** Painting box a a second time leaves one entry in the registry. *)
Lemma paintOutlineGL_refresh_in_place_witness :
  length (activeOutlines (paintOutlineGL numbered_unstable numbered_label again_a painted_a).2)
    = 1%nat /\
  NoDup (active_keys
           (activeOutlines (paintOutlineGL numbered_unstable numbered_label again_a painted_a).2)).
Proof.
  destruct (paintOutlineGL_refresh_in_place numbered_unstable numbered_label again_a painted_a)
    as [Hrefresh Hdistinct].
  split.
  - destruct Hrefresh as (l1 & a & l2 & _ & _ & _ & _ & Hlen & _).
    + vm_compute. apply list_elem_of_here.
    + rewrite Hlen. reflexivity.
  - apply Hdistinct. vm_compute. apply NoDup_singleton.
Defined.

(** Two outlines of box a merge into one region with two renders. *)
Lemma mergeOutlines_one_region_per_key_witness :
  (exists m, mergeOutlines [once_a; again_a] = [m] /\ length (renders m) = 2%nat) /\
  (exists o', o' ∈ mergeOutlines [once_b; once_a] /\
              getOutlineKey o' = getOutlineKey once_a /\
              length (renders o') = length (renders once_a)).
Proof.
  destruct (@mergeOutlines_one_region_per_key nat) as (_ & Hpair & Hperm).
  split.
  - destruct (Hpair once_a again_a) as [Hfirst _]; [reflexivity|]. exact Hfirst.
  - apply (Hperm [once_a; once_b] [once_b; once_a]).
    + apply Permutation_swap.
    + vm_compute. apply list_elem_of_here.
Defined.

(** A hidden element that was never measured gets [null] and no cache entry. *)
Lemma getRect_null_never_cached_witness :
  (getRect (hidden_page layout) 1%nat (initial (Render := nat) plain)).1 = None /\
  rectCache (getRect (hidden_page layout) 1%nat (initial (Render := nat) plain)).2 =
    rectCache (initial (Render := nat) plain).
Proof.
  destruct (@getRect_null_never_cached nat) as (Hnull & _ & _).
  apply (Hnull (hidden_page layout) 1%nat (initial plain)).
  - intros (c & Hc & _). vm_compute in Hc. discriminate.
  - left. left. reflexivity.
Defined.

(** One millisecond after the measurement the cached box is returned though
    the element has moved; 500ms after it the page is read again. *)
Lemma getRect_cache_window_witness :
  (getRect (page layout_moved 1 true) 1%nat measured).1 = Some box_a /\
  (getRect (page layout_moved 500 true) 1%nat measured).1 =
    liveRect (page layout_moved 500 true) 1%nat.
Proof.
  split.
  - apply (getRect_cache_window (page layout_moved 1 true) 1%nat measured (mkCached box_a 0)).
    + vm_compute. reflexivity.
    + vm_compute. reflexivity.
  - apply (getRect_cache_window (page layout_moved 500 true) 1%nat measured (mkCached box_a 0)).
    + vm_compute. reflexivity.
    + vm_compute. discriminate.
Defined.



(** The idle tick after the fade-out empties the caches. *)
Lemma idle_tick_clears_every_cache_witness :
  textureCache (tick (page layout 0 true) faded) = [] /\
  rectCache (tick (page layout 0 true) faded) = ∅.
Proof.
  destruct (idle_tick_clears_every_cache numbered_unstable fixed_measure
              (page layout 0 true) faded) as (_ & _ & Hrects & Htextures & _).
  - vm_compute. reflexivity.
  - split; [exact Htextures|exact Hrects].
Defined.

(** After the refresh of box a the registry still stores resolver 1 only. *)
Lemma paint_promise_never_settles_witness :
  resolve <$> activeOutlines
    (paintOutlineGL numbered_unstable numbered_label again_a painted_a).2 = [1%nat].
Proof.
  destruct (paint_promise_never_settles numbered_unstable numbered_label fixed_measure)
    as (_ & _ & _ & _ & _ & Hrefresh).
  rewrite (Hrefresh again_a painted_a).
  - reflexivity.
  - vm_compute. apply list_elem_of_here.
Defined.

(** * The further properties at work

    Fibers are numbered like the elements they render to, every fiber is
    its own host fiber, and in [nested] element 1 lies inside element 2,
    which carries the opt-out marker. *)

Definition own_host_fiber (fiber : nat) : option nat := Some fiber.
Definition fiber_element (fiber : nat) : option HTMLElement := Some fiber.

Definition nested : Document :=
  mkDocument (fun e => if Nat.eqb e 1 then [2%nat] else [])
             (fun e attribute =>
                Nat.eqb e 2 && String.eqb attribute "data-react-scan-ignore").

Definition unmarked : Document := mkDocument (fun _ => []) (fun _ _ => false).

(** On a page where every element is visible, [recalcOutlines] keeps the
    queued outline of box b and the active outline of box a. *)
Lemma recalcOutlines_keeps_visible_witness :
  pending_sans_rect <$> scheduledOutlines (recalcOutlines (page layout 0 true) late_b) =
    pending_sans_rect <$> scheduledOutlines late_b /\
  active_sans_rect <$> activeOutlines (recalcOutlines (page layout 0 true) late_b) =
    active_sans_rect <$> activeOutlines late_b.
Proof.
  apply (recalcOutlines_keeps_visible (page layout 0 true) late_b).
  intros e. unfold liveRect, page, layout. cbn.
  destruct (Nat.eqb e 1); vm_compute; discriminate.
Defined.

(** On a page where every element is hidden it drops them both. *)
Lemma recalcOutlines_drops_hidden_witness :
  scheduledOutlines (recalcOutlines (hidden_page layout) late_b) = [] /\
  activeOutlines (recalcOutlines (hidden_page layout) late_b) = [] /\
  rectCache (recalcOutlines (hidden_page layout) late_b) = ∅.
Proof.
  apply (recalcOutlines_drops_hidden (hidden_page layout) late_b).
  - intros e. reflexivity.
  - vm_compute. reflexivity.
Defined.

(** Element 1 lies inside the marked element 2: no outline, no page read. *)
Lemma getOutline_opt_out_witness :
  getOutline own_host_fiber fiber_element nested (page layout 0 true) 1%nat 7%nat
             (initial plain) = (None, initial plain).
Proof.
  apply (getOutline_opt_out own_host_fiber fiber_element nested (page layout 0 true)
           1%nat 7%nat (initial plain) 1%nat 1%nat 2%nat).
  - reflexivity.
  - reflexivity.
  - vm_compute. apply list_elem_of_further, list_elem_of_here.
  - reflexivity.
Defined.

(** Without a marker the render of fiber 1 gets the outline of box a. *)
Lemma getOutline_some_witness :
  getOutline own_host_fiber fiber_element unmarked (page layout 0 true) 1%nat 7%nat
             (initial plain) = (Some once_a, measured).
Proof.
  apply (getOutline_some own_host_fiber fiber_element unmarked (page layout 0 true)
           1%nat 7%nat (initial plain) once_a measured).
  exists 1%nat, 1%nat, box_a. split; [reflexivity|]. split; [reflexivity|].
  split; [intros e _; reflexivity|]. split; reflexivity.
Defined.

(** Two rectangles with one key are one rectangle. *)
Lemma rectKey_inj_witness :
  rectKey box_a = "10-10-100-50" /\ mkRect 10 10 100 50 = box_a.
Proof.
  split; [reflexivity|].
  apply (rectKey_inj (mkRect 10 10 100 50) box_a).
  - repeat split; vm_compute; discriminate.
  - repeat split; vm_compute; discriminate.
  - reflexivity.
Defined.

(** The two boxes have different keys: nothing to merge. *)
Lemma mergeOutlines_idempotent_witness :
  mergeOutlines [once_a; once_b] = [once_a; once_b].
Proof.
  destruct (@mergeOutlines_idempotent nat) as (Hdistinct & _ & _).
  apply (Hdistinct [once_a; once_b]).
  change (NoDup [getOutlineKey once_a; getOutlineKey once_b]).
  apply NoDup_cons. split; [|apply NoDup_singleton].
  intros Hin%list_elem_of_singleton. vm_compute in Hin. discriminate.
Defined.

(** The merged region of box a stands where its first outline stood. *)
Lemma mergeOutlines_keeps_first_witness :
  exists l1 first l2,
    [once_a; again_a] = l1 ++ first :: l2 /\
    getOutlineKey first = getOutlineKey twice_a /\
    (getOutlineKey twice_a ∉ getOutlineKey <$> l1) /\
    rect twice_a = rect first /\ domNode twice_a = domNode first.
Proof.
  apply (mergeOutlines_keeps_first [once_a; again_a] twice_a).
  vm_compute. apply list_elem_of_here.
Defined.

(** After the first flush the registry is not empty, and a frame is
    pending. *)
Lemma frame_pending_while_active_witness :
  animationFrameId painted_a <> None.
Proof.
  apply (frame_pending_while_active numbered_unstable numbered_label fixed_measure plain
           [OpSchedule [once_a]; OpFlush]).
  vm_compute. discriminate.
Defined.

(** The first tick after the flush of box a: two layout reads, one draw of
    one instance, one request for the next frame. *)
Lemma tick_draws_whole_registry_witness :
  exists reads id,
    log (tick (page layout 0 true) painted_a) =
      log painted_a ++ reads ++ [EvDrawInstanced 1] ++ [EvRequestFrame id] /\
    animationFrameId (tick (page layout 0 true) painted_a) = Some id.
Proof.
  destruct (tick_draws_whole_registry numbered_unstable fixed_measure
              (page layout 0 true) painted_a) as (reads & id & Hlog & Hid & _).
  - vm_compute. discriminate.
  - exists reads, id. split; [exact Hlog|exact Hid].
Defined.

(** After a flush and the tick it asked for, one tick is queued. *)
Lemma active_registry_has_one_tick_queued_witness :
  frames_queued
    (browser_run numbered_unstable numbered_label fixed_measure
       [OpSchedule [once_a]; OpFlush; OpTick (page layout 0 true)]
       (mkBrowser (initial plain) 0)) = 1%nat.
Proof.
  apply (active_registry_has_one_tick_queued numbered_unstable numbered_label fixed_measure
           plain [OpSchedule [once_a]; OpFlush; OpTick (page layout 0 true)]).
  vm_compute. discriminate.
Defined.

(** Three events of which two are resizes, then a frame: one run of
    [resize]. *)
Lemma createOverlay_coalesces_resizes_witness :
  resizeRuns (fold_left overlay_step [WinResize; WinScroll; WinResize; WinFrame]
                        (fold_left overlay_step [WinResize; WinFrame] createOverlay)) =
  S (resizeRuns (fold_left overlay_step [WinResize; WinFrame] createOverlay)).
Proof.
  destruct (createOverlay_coalesces_resizes [WinResize; WinFrame]
              [WinResize; WinScroll; WinResize]) as (_ & _ & Hruns & _).
  - reflexivity.
  - exact Hruns.
Defined.

